(** * QiskitHumanEval evaluation harness: a shallow embedding

    Source: [01_qiskit-human-eval/evaluate_qiskit_humaneval.py].

    The embedding follows the script top to bottom: Python strings and the
    few [str] methods the script calls, a backtracking matcher for the two
    regular expressions it compiles, [str.format], the data classes, the
    model call, the execution harness, the task loader and the driver with
    its summary-and-persistence tail.

    Conventions.
    - A Python [str] is a [list ascii]; a character is a code point below 256
      (Latin-1).  Whitespace is what [str.isspace] and the pattern [\s] accept
      in that range.
    - An exception is a value of [exn]; code that can raise returns [res].
    - What the script reaches through third-party or standard libraries
      (the model API, the dataset loader, the child process, the clock) is an
      oracle: a [Variable] of the section that models the driver. *)

From Stdlib Require Import List Ascii ZArith QArith Lia Bool Arith PeanoNat.
From Stdlib Require String.
From Stdlib Require Import Numbers.DecimalString Floats Uint63.
Import ListNotations String.StringSyntax.
Close Scope Q_scope.

Set Implicit Arguments.

(** ** Python strings *)

Definition str := list ascii.

(** A literal: [lit "abc"] is the Python string ['abc']. *)
Definition lit (s : String.string) : str := String.list_ascii_of_string s.
Delimit Scope string_scope with string.
Arguments lit s%_string.

Definition nl : ascii := ascii_of_nat 10.
Definition dq : ascii := ascii_of_nat 34.

Module Str.

(** [str.isspace] on one character, for code points below 256:
    U+0009..U+000D, U+001C..U+0020, U+0085 and U+00A0. *)
Definition is_space (c : ascii) : bool :=
  let n := nat_of_ascii c in
  ((9 <=? n) && (n <=? 13)) || ((28 <=? n) && (n <=? 32))
  || (n =? 133) || (n =? 160).

Fixpoint lstrip (s : str) : str :=
  match s with
  | c :: s' => if is_space c then lstrip s' else s
  | [] => []
  end.

Definition rstrip (s : str) : str := rev (lstrip (rev s)).

(** [s.strip()] *)
Definition strip (s : str) : str := rstrip (lstrip s).

(** [s.startswith(p)] *)
Fixpoint startswith (p s : str) : bool :=
  match p, s with
  | [], _ => true
  | a :: p', b :: s' => Ascii.eqb a b && startswith p' s'
  | _ :: _, [] => false
  end.

(** [needle in hay] *)
Fixpoint contains (needle hay : str) : bool :=
  startswith needle hay
  || match hay with
     | [] => false
     | _ :: hay' => contains needle hay'
     end.

(** [s[:n]] for [n >= 0] *)
Definition slice_to (n : nat) (s : str) : str := firstn n s.

(** [str(z)] and the [{z}] of an f-string, for an [int]. *)
Definition of_int (z : Z) : str :=
  lit (NilEmpty.string_of_int (Z.to_int z)).

(** [f"{n:03d}"] for [n >= 0]: zero-padded on the left to width 3. *)
Definition of_nat_03d (n : nat) : str :=
  let d := of_int (Z.of_nat n) in
  repeat "0"%char (3 - length d) ++ d.

(** [a < b] on strings: lexicographic on code points. *)
Fixpoint ltb (a b : str) : bool :=
  match a, b with
  | [], [] => false
  | [], _ :: _ => true
  | _ :: _, [] => false
  | x :: a', y :: b' =>
      let nx := nat_of_ascii x in
      let ny := nat_of_ascii y in
      if nx <? ny then true
      else if ny <? nx then false
      else ltb a' b'
  end.

Definition eqb (a b : str) : bool :=
  if list_eq_dec ascii_dec a b then true else false.

(** [sep.join(parts)] *)
Fixpoint join (sep : str) (parts : list str) : str :=
  match parts with
  | [] => []
  | [p] => p
  | p :: ps => p ++ sep ++ join sep ps
  end.

End Str.

(** Declarative counterparts used in statements. *)

(** [needle] occurs in [hay] as a contiguous substring. *)
Definition Substring (needle hay : str) : Prop :=
  exists a b, hay = a ++ needle ++ b.

(** [hay] splits at the leftmost occurrence of [needle]. *)
Definition FirstOcc (needle hay pre post : str) : Prop :=
  hay = pre ++ needle ++ post /\
  forall a b, hay = a ++ needle ++ b -> length pre <= length a.

(** ** Regular expressions

    The fragment of Python's [re] that the script's two patterns use, with
    the engine's backtracking order: alternatives left to right, a greedy
    star tries one more iteration before stopping, a lazy star stops before
    trying one more.  Group 1 is the only capture.  The flags are those of
    the call sites: [Any] is [.] under [re.DOTALL], [Eol] is [$] under
    [re.MULTILINE]. *)

Module Re.

Inductive regex : Type :=
| Eps : regex
| Chr : (ascii -> bool) -> regex
| Seq : regex -> regex -> regex
| Alt : regex -> regex -> regex
| Star : bool -> regex -> regex      (* [true]: greedy [r*]; [false]: lazy [r*?] *)
| Grp : regex -> regex               (* capture group 1 *)
| Eol : regex.                       (* [$] with [re.M] *)

Definition Any : regex := Chr (fun _ => true).      (* [.] with [re.S] *)
Definition Space : regex := Chr Str.is_space.       (* [\s] *)
Definition Opt (r : regex) : regex := Alt r Eps.    (* greedy [r?] *)

Fixpoint Lit (s : str) : regex :=
  match s with
  | [] => Eps
  | c :: s' => Seq (Chr (Ascii.eqb c)) (Lit s')
  end.

Definition orelse {A} (x y : option A) : option A :=
  match x with Some _ => x | None => y end.

Section Matcher.
Variable R : Type.

(** The continuation receives what is left of the subject and the
    capture so far. *)
Definition cont := str -> option str -> option R.

(** The iterations of a star over [step], the matcher of its body.  An
    iteration that consumes nothing is not repeated. *)
Fixpoint star_loop (step : str -> option str -> cont -> option R)
         (greedy : bool) (k : cont) (fuel : nat) (s : str) (g : option str)
  : option R :=
  match fuel with
  | O => k s g
  | S fuel' =>
      let more :=
        step s g (fun s' g' =>
          if length s' <? length s
          then star_loop step greedy k fuel' s' g'
          else None) in
      if greedy then orelse more (k s g) else orelse (k s g) more
  end.

Fixpoint run (r : regex) (s : str) (g : option str) (k : cont) : option R :=
  match r with
  | Eps => k s g
  | Chr p =>
      match s with
      | c :: s' => if p c then k s' g else None
      | [] => None
      end
  | Seq a b => run a s g (fun s' g' => run b s' g' k)
  | Alt a b => orelse (run a s g k) (run b s g k)
  | Star greedy a => star_loop (run a) greedy k (length s) s g
  | Grp a =>
      run a s g (fun s' _ => k s' (Some (firstn (length s - length s') s)))
  | Eol =>
      match s with
      | [] => k s g
      | c :: _ => if Ascii.eqb c nl then k s g else None
      end
  end.
End Matcher.

(** A match anchored at the start of [s]: the capture of group 1. *)
Definition match_here (r : regex) (s : str) : option (option str) :=
  run r s None (fun _ g => Some g).

(** [re.search]: the leftmost start position that matches. *)
Fixpoint search (r : regex) (s : str) : option (option str) :=
  match match_here r s with
  | Some g => Some g
  | None =>
      match s with
      | [] => None
      | _ :: s' => search r s'
      end
  end.

(** [m.group(1)] of a successful match whose group took part. *)
Definition group1 (m : option (option str)) : option str :=
  match m with
  | Some (Some g) => Some g
  | _ => None
  end.

End Re.

(** ** Prompting helpers *)

Definition FENCE : str := lit "```".

(** [re.compile(r"```(?:python)?\s*(.*?)```", re.DOTALL)] *)
Definition CODE_BLOCK_RE : Re.regex :=
  Re.Seq (Re.Lit FENCE)
    (Re.Seq (Re.Opt (Re.Lit (lit "python")))
       (Re.Seq (Re.Star true Re.Space)
          (Re.Seq (Re.Grp (Re.Star false Re.Any))
             (Re.Lit FENCE)))).

Definition extract_code_only (text : str) : str :=
  match Re.search CODE_BLOCK_RE text with
  | Some m =>
      match m with
      | Some g => Str.strip g
      | None => []
      end
  | None => Str.strip text
  end.

(** ** Exceptions

    The classes the script names or can meet, with Python's and the OpenAI
    SDK's subclass order.  [str(e)] and [repr(e)] are attributes of the
    raised value. *)

Inductive exn_class : Type :=
| BaseException | KeyboardInterrupt | PyException
| RuntimeError | ValueError | TypeError | AttributeError
| LookupError | KeyError | IndexError
| OSError | SubprocessError | TimeoutExpired
| DatasetLoadError
| OpenAIError | APIError | APIResponseValidationError
| APIStatusError | RateLimitError | AuthenticationError | InternalServerError
| APIConnectionError | APITimeoutError.

Definition exn_class_eqb (a b : exn_class) : bool :=
  match a, b with
  | BaseException, BaseException | KeyboardInterrupt, KeyboardInterrupt
  | PyException, PyException | RuntimeError, RuntimeError
  | ValueError, ValueError | TypeError, TypeError
  | AttributeError, AttributeError | LookupError, LookupError
  | KeyError, KeyError | IndexError, IndexError | OSError, OSError
  | SubprocessError, SubprocessError | TimeoutExpired, TimeoutExpired
  | DatasetLoadError, DatasetLoadError
  | OpenAIError, OpenAIError | APIError, APIError
  | APIResponseValidationError, APIResponseValidationError
  | APIStatusError, APIStatusError | RateLimitError, RateLimitError
  | AuthenticationError, AuthenticationError
  | InternalServerError, InternalServerError
  | APIConnectionError, APIConnectionError
  | APITimeoutError, APITimeoutError => true
  | _, _ => false
  end.

(** The direct base class. *)
Definition base_of (c : exn_class) : option exn_class :=
  match c with
  | BaseException => None
  | KeyboardInterrupt => Some BaseException
  | PyException => Some BaseException
  | RuntimeError | ValueError | TypeError | AttributeError
  | LookupError | OSError | SubprocessError | DatasetLoadError
  | OpenAIError => Some PyException
  | KeyError | IndexError => Some LookupError
  | TimeoutExpired => Some SubprocessError
  | APIError => Some OpenAIError
  | APIResponseValidationError | APIStatusError | APIConnectionError =>
      Some APIError
  | RateLimitError | AuthenticationError | InternalServerError =>
      Some APIStatusError
  | APITimeoutError => Some APIConnectionError
  end.

Fixpoint subclass_fuel (fuel : nat) (c d : exn_class) : bool :=
  exn_class_eqb c d
  || match fuel with
     | O => false
     | S fuel' =>
         match base_of c with
         | Some b => subclass_fuel fuel' b d
         | None => false
         end
     end.

(** [issubclass(c, d)]; no chain of bases is longer than 6. *)
Definition issubclass (c d : exn_class) : bool := subclass_fuel 6 c d.

Record exn : Type := mk_exn {
  exn_cls : exn_class;
  exn_str : str;        (* [str(e)] *)
  exn_repr : str        (* [repr(e)] *)
}.

(** [isinstance(e, d)] *)
Definition isinstance (e : exn) (d : exn_class) : bool :=
  issubclass (exn_cls e) d.

(** [except (d1, d2, ...)] *)
Definition caught_by (e : exn) (ds : list exn_class) : bool :=
  existsb (isinstance e) ds.

Inductive res (A : Type) : Type :=
| Ok : A -> res A
| Raise : exn -> res A.
Arguments Ok {A} _.
Arguments Raise {A} _.

Definition res_bind {A B} (x : res A) (f : A -> res B) : res B :=
  match x with
  | Ok a => f a
  | Raise e => Raise e
  end.

(** ** [str.format] with keyword arguments

    Replacement fields are plain names; [{{] and [}}] are escaped braces.
    A field with a conversion, a format spec, an attribute or an index is
    outside the fragment and is reported as [ValueError]. *)

Module Format.

Inductive seg : Type :=
| Text : str -> seg
| Field : str -> seg.

Definition lbrace : ascii := "{"%char.
Definition rbrace : ascii := "}"%char.

Definition is_name_char (c : ascii) : bool :=
  let n := nat_of_ascii c in
  ((48 <=? n) && (n <=? 57)) || ((65 <=? n) && (n <=? 90))
  || ((97 <=? n) && (n <=? 122)) || (n =? 95).

Definition is_digit (c : ascii) : bool :=
  let n := nat_of_ascii c in (48 <=? n) && (n <=? 57).

Definition value_error (m : String.string) : exn :=
  mk_exn ValueError (lit m) (lit "ValueError(...)").
Arguments value_error m%_string.

Definition cons_seg (x : seg) (r : res (list seg)) : res (list seg) :=
  res_bind r (fun l => Ok (x :: l)).

(** [cur] is [Some name] inside a replacement field, the name read so far
    in reverse. *)
Fixpoint parse (s : str) (cur : option str) : res (list seg) :=
  match s, cur with
  | [], None => Ok []
  | [], Some _ => Raise (value_error "expected '}' before end of string")
  | c :: s', None =>
      if Ascii.eqb c lbrace then
        match s' with
        | c' :: s'' =>
            if Ascii.eqb c' lbrace
            then cons_seg (Text [lbrace]) (parse s'' None)
            else parse s' (Some [])
        | [] => Raise (value_error "Single '{' encountered in format string")
        end
      else if Ascii.eqb c rbrace then
        match s' with
        | c' :: s'' =>
            if Ascii.eqb c' rbrace
            then cons_seg (Text [rbrace]) (parse s'' None)
            else Raise (value_error "Single '}' encountered in format string")
        | [] => Raise (value_error "Single '}' encountered in format string")
        end
      else cons_seg (Text [c]) (parse s' None)
  | c :: s', Some name =>
      if Ascii.eqb c rbrace then cons_seg (Field (rev name)) (parse s' None)
      else if is_name_char c then parse s' (Some (c :: name))
      else Raise (value_error "field outside the modelled fragment")
  end.

Fixpoint lookup (k : str) (kwargs : list (str * str)) : option str :=
  match kwargs with
  | [] => None
  | (k', v) :: rest => if Str.eqb k k' then Some v else lookup k rest
  end.

(** No positional argument is ever passed, so an empty or numeric field
    name is an [IndexError]; an unknown name is a [KeyError]. *)
Definition field_value (name : str) (kwargs : list (str * str)) : res str :=
  match name with
  | [] => Raise (mk_exn IndexError (lit "Replacement index 0 out of range")
                        (lit "IndexError(...)"))
  | c :: _ =>
      if is_digit c
      then Raise (mk_exn IndexError (lit "Replacement index out of range")
                         (lit "IndexError(...)"))
      else match lookup name kwargs with
           | Some v => Ok v
           | None => Raise (mk_exn KeyError name (lit "KeyError(...)"))
           end
  end.

Fixpoint render (segs : list seg) (kwargs : list (str * str)) : res str :=
  match segs with
  | [] => Ok []
  | Text t :: rest => res_bind (render rest kwargs) (fun r => Ok (t ++ r))
  | Field n :: rest =>
      res_bind (field_value n kwargs) (fun v =>
      res_bind (render rest kwargs) (fun r => Ok (v ++ r)))
  end.

(** [template.format] called with keyword arguments only *)
Definition format (template : str) (kwargs : list (str * str)) : res str :=
  res_bind (parse template None) (fun segs => render segs kwargs).

End Format.

(** ** Data types *)

(** The fields a [Task] takes from a dataset row hold what the row holds: a
    string, or [None] for a null cell.  The dataclass annotates them [str],
    but nothing checks an annotation when the object is built. *)
Module Task.
Record t : Type := mk {
  idx : nat;
  task_id : option str;
  entry_point : option str;
  prompt : option str;
  test : option str;
  difficulty_scale : option str
}.
End Task.

(** [format(v, "")]: what [str.format] and an f-string put in place of a
    field whose value is [v]. *)
Definition py_str (v : option str) : str :=
  match v with
  | Some s => s
  | None => lit "None"
  end.

(** [len(v)] *)
Definition py_len (v : option str) : res nat :=
  match v with
  | Some s => Ok (length s)
  | None => Raise (mk_exn TypeError
                          (lit "object of type 'NoneType' has no len()")
                          (lit "TypeError(...)"))
  end.

(** [v + s] for a string [s] *)
Definition py_add (v : option str) (s : str) : res str :=
  match v with
  | Some a => Ok (a ++ s)
  | None => Raise (mk_exn TypeError
                     (lit "unsupported operand type(s) for +: 'NoneType' and 'str'")
                     (lit "TypeError(...)"))
  end.

Module Result.
Record t : Type := mk {
  task_id : option str;
  entry_point : option str;
  passed : bool;
  error : option str;
  gen_tokens : option Z;
  prompt_chars : nat;
  completion_chars : nat;
  latency_s : Q;
  difficulty_scale : option str;
  model : str;
  file_path : str
}.

(** [list(asdict(r).keys())]: the field names, in declaration order. *)
Definition fieldnames : list str :=
  [lit "task_id"; lit "entry_point"; lit "passed"; lit "error";
   lit "gen_tokens"; lit "prompt_chars"; lit "completion_chars";
   lit "latency_s"; lit "difficulty_scale"; lit "model"; lit "file_path"].
End Result.

Module Summary.
Record bucket : Type := mk_bucket { b_passed : nat; b_total : nat }.

Record t : Type := mk {
  model : str;
  dataset : str;
  split : str;
  timestamp : str;
  pass_at_1 : float;
  passed : nat;
  total : nat;
  by_difficulty : list (option str * bucket)
}.
End Summary.

(** The parsed command line. *)
Module Args.
Record t : Type := mk {
  model : str;
  dataset : str;
  split : str;
  max_items : option Z;
  temperature : float;
  top_p : float;
  max_output_tokens : Z;
  seed : Z;
  parallel : Z;
  timeout_sec : Z;
  outdir : str;
  dry_run : bool
}.
End Args.

(** A dataset row is a [dict] from column names to cells; a cell holds a
    string or, when it is null, [None].  A column the dataset does not have
    is a key the row does not have. *)
Definition row := list (str * option str).

(** The cell under key [k], when the row has that key. *)
Fixpoint row_find (k : str) (r : row) : option (option str) :=
  match r with
  | [] => None
  | (k', v) :: rest => if Str.eqb k k' then Some v else row_find k rest
  end.

(** [row.get(k, default)]: the default stands in for an absent key only. *)
Definition row_get_default (r : row) (k : str) (default : option str)
  : option str :=
  match row_find k r with
  | Some v => v
  | None => default
  end.

(** [row.get(k)] *)
Definition row_get (r : row) (k : str) : option str :=
  row_get_default r k None.

(** [row[k]] *)
Definition row_item (r : row) (k : str) : res (option str) :=
  match row_find k r with
  | Some v => Ok v
  | None => Raise (mk_exn KeyError k (lit "KeyError(...)"))
  end.

(** ** The world the script acts on *)

Record World : Type := mk_world {
  files : list (str * str);          (* path |-> text, newest binding first *)
  environ : list (str * str);        (* [os.environ] *)
  clock : Q;                         (* [time.time()] *)
  live : list nat;                   (* children started and not yet reaped *)
  spawned : nat;                     (* children started so far *)
  tmp_made : nat;                    (* temporary directories made so far *)
  api_calls : nat                    (* requests sent to the model so far *)
}.

Definition M (A : Type) : Type := World -> res A * World.

Definition ret {A} (a : A) : M A := fun w => (Ok a, w).
Definition raise {A} (e : exn) : M A := fun w => (Raise e, w).
Definition bind {A B} (m : M A) (f : A -> M B) : M B :=
  fun w =>
    match m w with
    | (Ok a, w') => f a w'
    | (Raise e, w') => (Raise e, w')
    end.
Definition lift {A} (r : res A) : M A := fun w => (r, w).

(** [try: m  except: h], the handler seeing every raised value. *)
Definition try_with {A} (m : M A) (h : exn -> M A) : M A :=
  fun w =>
    match m w with
    | (Ok a, w') => (Ok a, w')
    | (Raise e, w') => h e w'
    end.

(** [try: m  finally: f] *)
Definition finally {A} (m : M A) (f : World -> World) : M A :=
  fun w => let (r, w') := m w in (r, f w').

Declare Scope py_scope.
Delimit Scope py_scope with py.
Notation "x <- m ;; k" := (bind m (fun x => k))
  (at level 61, m at next level, right associativity) : py_scope.
Notation "m ;;; k" := (bind m (fun _ => k))
  (at level 61, right associativity) : py_scope.
Notation "' p <- m ;; k" := (bind m (fun p => k))
  (at level 61, p pattern, m at next level, right associativity) : py_scope.
Open Scope py_scope.

(** *** Files and paths *)

(** [Path(a) / b] for a relative [b]. *)
Definition path_join (a b : str) : str := a ++ lit "/" ++ b.

(** [Path(p).name]: what follows the last slash. *)
Fixpoint path_name_acc (p acc : str) : str :=
  match p with
  | [] => rev acc
  | c :: p' =>
      if Ascii.eqb c "/"%char then path_name_acc p' []
      else path_name_acc p' (c :: acc)
  end.
Definition path_name (p : str) : str := path_name_acc p [].

(** [s.replace(a, b)] for single characters. *)
Definition replace_char (a b : ascii) (s : str) : str :=
  map (fun c => if Ascii.eqb c a then b else c) s.

Definition fs_lookup (p : str) (fs : list (str * str)) : option str :=
  Format.lookup p fs.

Definition set_files (fs : list (str * str)) (w : World) : World :=
  mk_world fs (environ w) (clock w) (live w) (spawned w) (tmp_made w)
           (api_calls w).

(** [p.write_text(s)] and the end of [with p.open("w")]. *)
Definition write_text (p s : str) : M unit :=
  fun w => (Ok tt, set_files ((p, s) :: files w) w).

(** [p.exists()] *)
Definition path_exists (p : str) : M bool :=
  fun w => (Ok (match fs_lookup p (files w) with Some _ => true | None => false end), w).

(** [p.read_text()] *)
Definition read_text (p : str) : M str :=
  fun w =>
    match fs_lookup p (files w) with
    | Some s => (Ok s, w)
    | None => (Raise (mk_exn OSError p (lit "FileNotFoundError(...)")), w)
    end.

(** [time.time()] *)
Definition time_time : M Q := fun w => (Ok (clock w), w).

(** Removing a directory tree: every path under [dir/]. *)
Definition remove_tree (dir : str) (w : World) : World :=
  set_files
    (filter (fun pv => negb (Str.startswith (dir ++ lit "/") (fst pv))) (files w))
    w.

(** ** The model call and the execution harness *)

(** Lines, each terminated by a newline. *)
Definition unlines (ls : list str) : str :=
  concat (map (fun l => l ++ [nl]) ls).

Definition SYSTEM_INSTRUCTIONS : str :=
  lit "You are a senior Qiskit+Python developer." ++ [nl]
  ++ lit "Given a prompt that already includes imports and a function signature docstring, "
  ++ lit "return a FULL, correct Python function implementation that matches the signature. "
  ++ unlines
       [lit "Requirements:";
        lit "- Output ONLY Python code. No Markdown, no ``` fences, no prose.";
        lit "- Define exactly one function named as specified by the signature.";
        lit "- Assume imports present in the prompt are available; avoid extra imports unless necessary.";
        lit "- Avoid network calls or file I/O."].

Definition USER_SUFFIX : str :=
  [nl; nl]
  ++ unlines
       [lit "# Implement the required function now.";
        lit "# IMPORTANT: Output ONLY the function definition (no imports, no tests, no comments above the def)."].

Definition QHE_PASS : str := lit "___QHE_PASS___".
Definition QHE_FAIL : str := lit "___QHE_FAIL___:".

Definition EXEC_TEMPLATE : str :=
  unlines
    [lit "# === BEGIN PROMPT (dataset) ===";
     lit "{prompt}";
     [];
     lit "# === BEGIN MODEL COMPLETION ===";
     lit "{completion}";
     [];
     lit "# === BEGIN TEST CODE (dataset) ===";
     lit "{test_code}";
     [];
     lit "# === HARNESS ===";
     lit "def __run_check():";
     lit "    # Import the solution function by name and run dataset's check()";
     lit "    return check({entry_point})";
     [];
     lit "if __name__ == " ++ [dq] ++ lit "__main__" ++ [dq] ++ lit ":";
     lit "    try:";
     lit "        __run_check()";
     lit "        print(" ++ [dq] ++ QHE_PASS ++ [dq] ++ lit ")";
     lit "    except Exception as e:";
     lit "        print(" ++ [dq] ++ QHE_FAIL ++ [dq] ++ lit " + repr(e))"].

(** [EXEC_TEMPLATE.format(prompt=..., completion=..., test_code=...,
    entry_point=...)], as [evaluate] calls it. *)
Definition assemble (t : Task.t) (completion_text : str) : res str :=
  Format.format EXEC_TEMPLATE
    [(lit "prompt", py_str (Task.prompt t));
     (lit "completion", completion_text);
     (lit "test_code", py_str (Task.test t));
     (lit "entry_point", py_str (Task.entry_point t))].

(** The pattern of the [re.search] call in [run_in_subprocess]: the failure
    sentinel with its colon, group 1 a greedy dot-star, then [$]; the flags
    are [re.M | re.S]. *)
Definition FAIL_RE : Re.regex :=
  Re.Seq (Re.Lit QHE_FAIL) (Re.Seq (Re.Grp (Re.Star true Re.Any)) Re.Eol).

(** What [subprocess.run] is asked to do. *)
Record Launch : Type := mk_launch {
  argv : list str;
  merge_stderr : bool;               (* [stderr=subprocess.STDOUT] *)
  timeout : Z;
  text_mode : bool;
  env : list (str * str)
}.

Record CompletedProcess : Type := mk_completed {
  stdout : option str;
  returncode : Z
}.

(** What a started child does, left to itself. *)
Inductive child_behaviour : Type :=
| Exits : option str -> Z -> Q -> child_behaviour   (* output, exit code, seconds *)
| Hangs : child_behaviour
| LaunchFails : exn -> child_behaviour.

(** The classification that ends [run_in_subprocess]. *)
Definition classify (p : CompletedProcess) : bool * option str :=
  let out := Str.strip (match stdout p with
                        | Some s => s
                        | None => []
                        end) in
  if Str.contains QHE_PASS out then (true, None)
  else
    match Re.search FAIL_RE out with
    | Some m =>
        (false, Some (Str.strip (match m with Some g => g | None => [] end)))
    | None =>
        (false, Some (lit "RuntimeError: " ++ Str.slice_to 5000 out))
    end.

(** The model's answer. *)
Record Usage : Type := mk_usage { output_tokens : option Z }.
Record Response : Type := mk_response {
  output_text : option str;
  usage : option Usage
}.

Record Request : Type := mk_request {
  rq_model : str;
  rq_system : str;
  rq_user : str;
  rq_temperature : float;
  rq_top_p : float;
  rq_max_output_tokens : Z
}.

(** ** The driver *)

Section Driver.

(** Oracles: what the script obtains from outside itself. *)
Variable now_stamp : str.                       (* [now_stamp()] at start-up *)
Variable sys_executable : str.                  (* [sys.executable] *)
Variable mkdtemp : nat -> str.                  (* the n-th temporary directory *)
Variable load_dataset : str -> str -> res (list row).
Variable responses_create : nat -> Request -> res Response.
Variable child : nat -> Launch -> option str -> child_behaviour.
Variable csv_dumps : list str -> list Result.t -> str.
Variable json_dumps : Summary.t -> str.

(** *** [call_openai] *)

Definition bump_api (w : World) : World :=
  mk_world (files w) (environ w) (clock w) (live w) (spawned w) (tmp_made w)
           (S (api_calls w)).

(** [client.responses.create(...)] *)
Definition client_responses_create (rq : Request) : M Response :=
  fun w => (responses_create (api_calls w) rq, bump_api w).

(** [call_openai]: [prompt + USER_SUFFIX] is evaluated before the [try],
    so that a prompt that is [None] leaves the function with a [TypeError]
    and no request sent. *)
Definition call_openai (model : str) (prompt : option str)
           (temperature top_p : float)
           (max_output_tokens seed : Z) : M (str * option Z) :=
  input_text <- lift (py_add prompt USER_SUFFIX) ;;
  resp <- try_with
            (client_responses_create
               (mk_request model SYSTEM_INSTRUCTIONS input_text
                           temperature top_p max_output_tokens))
            (fun e =>
               if caught_by e [APIStatusError; APIConnectionError; APIError]
               then raise (mk_exn RuntimeError
                             (lit "OpenAI API error: " ++ exn_str e)
                             (lit "RuntimeError(...)"))
               else raise e) ;;
  let text := Str.strip (match output_text resp with
                         | Some s => s
                         | None => []
                         end) in
  let out_tok := match usage resp with
                 | Some u => output_tokens u
                 | None => None
                 end in
  ret (text, out_tok).

(** *** [run_in_subprocess] *)

Definition set_procs (l : list nat) (n : nat) (w : World) : World :=
  mk_world (files w) (environ w) (clock w) l n (tmp_made w) (api_calls w).

Definition advance (d : Q) (w : World) : World :=
  mk_world (files w) (environ w) (Qplus (clock w) d) (live w) (spawned w)
           (tmp_made w) (api_calls w).

Definition reap (pid : nat) (w : World) : World :=
  set_procs (remove Nat.eq_dec pid (live w)) (spawned w) w.

Definition timeout_expired : exn :=
  mk_exn TimeoutExpired (lit "timed out") (lit "TimeoutExpired(...)").

(** Python's [subprocess.run] with a timeout.  The child is started; if it
    ends within the timeout it is waited for and its output returned;
    otherwise [run] kills it, waits for it and raises [TimeoutExpired]. *)
Definition subprocess_run (l : Launch) : M CompletedProcess :=
  fun w =>
    let pid := spawned w in
    let script := match rev (argv l) with
                  | p :: _ => fs_lookup p (files w)
                  | [] => None
                  end in
    match child pid l script with
    | LaunchFails e => (Raise e, w)
    | Exits out rc d =>
        let w1 := set_procs (pid :: live w) (S pid) w in
        if Qle_bool d (inject_Z (timeout l))
        then (Ok (mk_completed out rc), reap pid (advance d w1))
        else (Raise timeout_expired,
              reap pid (advance (inject_Z (timeout l)) w1))
    | Hangs =>
        let w1 := set_procs (pid :: live w) (S pid) w in
        (Raise timeout_expired, reap pid (advance (inject_Z (timeout l)) w1))
    end.

(** [with tempfile.TemporaryDirectory() as td: body] *)
Definition with_tempdir {A} (body : str -> M A) : M A :=
  fun w =>
    let td := mkdtemp (tmp_made w) in
    let w1 := mk_world (files w) (environ w) (clock w) (live w) (spawned w)
                       (S (tmp_made w)) (api_calls w) in
    finally (body td) (remove_tree td) w1.

(** The argument list and environment of the child. *)
Definition launch_of (src : str) (timeout_sec : Z) (w : World) : Launch :=
  mk_launch [sys_executable; lit "-I"; lit "-B"; src]
            true timeout_sec true (environ w).

Definition run_in_subprocess (code : str) (timeout_sec : Z)
  : M (bool * option str) :=
  with_tempdir (fun td =>
    let src := path_join td (lit "eval_task.py") in
    write_text src code ;;;
    r <- try_with
           (p <- (fun w => subprocess_run (launch_of src timeout_sec w) w) ;;
            ret (inl p))
           (fun e =>
              if isinstance e TimeoutExpired
              then ret (inr (false,
                             Some (lit "Timeout(" ++ Str.of_int timeout_sec
                                   ++ lit "s)")))
              else if isinstance e PyException
              then ret (inr (false,
                             Some (lit "SubprocessError: " ++ exn_repr e)))
              else raise e) ;;
    match r with
    | inl p => ret (classify p)
    | inr early => ret early
    end).

(** *** [load_tasks] *)

(** [limit is not None and i >= limit] *)
Definition limit_reached (limit : option Z) (i : nat) : bool :=
  match limit with
  | Some l => (l <=? Z.of_nat i)%Z
  | None => false
  end.

(** The loop over [enumerate(ds)], entered at index [i]. *)
Fixpoint load_rows (i : nat) (ds : list row) (limit : option Z)
  : res (list Task.t) :=
  match ds with
  | [] => Ok []
  | r :: ds' =>
      if limit_reached limit i then Ok []
      else
        let tid := row_get_default r (lit "task_id")
                                   (Some (Str.of_int (Z.of_nat i))) in
        res_bind (row_item r (lit "entry_point")) (fun ep =>
        res_bind (row_item r (lit "prompt")) (fun pr =>
        res_bind (row_item r (lit "test")) (fun te =>
        let t := Task.mk i tid ep pr te
                         (row_get r (lit "difficulty_scale")) in
        res_bind (load_rows (S i) ds' limit) (fun ts => Ok (t :: ts)))))
  end.

Definition load_tasks (dataset split : str) (limit : option Z)
  : res (list Task.t) :=
  res_bind (load_dataset dataset split) (fun ds => load_rows 0 ds limit).

(** *** [evaluate]: one task *)

(** [OpenAI()]: the SDK reads [OPENAI_API_KEY] and refuses to start
    without it. *)
Definition new_client : M unit :=
  fun w =>
    match Format.lookup (lit "OPENAI_API_KEY") (environ w) with
    | Some _ => (Ok tt, w)
    | None => (Raise (mk_exn OpenAIError (lit "api_key must be set")
                             (lit "OpenAIError(...)")), w)
    end.

Definition gen_path_of (gens_dir : str) (t : Task.t) : str :=
  path_join gens_dir
    (Str.of_nat_03d (Task.idx t) ++ lit "_" ++ py_str (Task.entry_point t)
     ++ lit ".py").

(** Step 1 of the loop body: the completion and its token count. *)
Definition get_completion (args : Args.t) (gen_path : str) (t : Task.t)
  : M (str * option Z) :=
  cached <- (if Args.dry_run args then path_exists gen_path else ret false) ;;
  if cached then
    completion_text <- read_text gen_path ;;
    ret (completion_text, None)
  else
    ' (raw_text, output_tokens) <-
        try_with
          (call_openai (Args.model args) (Task.prompt t)
                       (Args.temperature args) (Args.top_p args)
                       (Args.max_output_tokens args) (Args.seed args))
          (fun e =>
             if isinstance e RuntimeError then ret ([], None) else raise e) ;;
    let completion_text := extract_code_only raw_text in
    write_text gen_path completion_text ;;;
    ret (completion_text, output_tokens).

(** The body of [for t in tasks].  The arguments of [Result(...)] are
    evaluated once the child has run; [len(t.prompt)] is the one that can
    raise. *)
Definition process_task (args : Args.t) (gens_dir : str) (t : Task.t)
  : M Result.t :=
  let gen_path := gen_path_of gens_dir t in
  ' (completion_text, output_tokens) <- get_completion args gen_path t ;;
  program <- lift (assemble t completion_text) ;;
  t0 <- time_time ;;
  ' (passed, err) <- run_in_subprocess program (Args.timeout_sec args) ;;
  t1 <- time_time ;;
  prompt_chars <- lift (py_len (Task.prompt t)) ;;
  ret (Result.mk (Task.task_id t) (Task.entry_point t) passed err
                 output_tokens prompt_chars
                 (length completion_text) (Qminus t1 t0)
                 (Task.difficulty_scale t) (Args.model args) gen_path).

Fixpoint for_tasks (args : Args.t) (gens_dir : str) (tasks : list Task.t)
         (results : list Result.t) : M (list Result.t) :=
  match tasks with
  | [] => ret results
  | t :: tasks' =>
      r <- process_task args gens_dir t ;;
      for_tasks args gens_dir tasks' (results ++ [r])
  end.

(** *** Summary and persistence *)

(** [sum(1 for r in results if f(r))] *)
Definition count_if (f : Result.t -> bool) (results : list Result.t) : nat :=
  length (filter f results).

Definition float_of_nat (n : nat) : float :=
  PrimFloat.of_uint63 (Uint63.of_Z (Z.of_nat n)).

(** [passed_n / total_n if total_n else 0.0] *)
Definition pass_ratio (passed_n total_n : nat) : float :=
  match total_n with
  | O => 0%float
  | S _ => PrimFloat.div (float_of_nat passed_n) (float_of_nat total_n)
  end.

(** [a == b] on [Optional[str]] *)
Definition label_eqb (a b : option str) : bool :=
  match a, b with
  | None, None => true
  | Some x, Some y => Str.eqb x y
  | _, _ => false
  end.

Definition label_eq_dec (a b : option str) : {a = b} + {a <> b}.
Proof. decide equality. apply (list_eq_dec ascii_dec). Defined.

Definition type_error : exn :=
  mk_exn TypeError
    (lit "'<' not supported between instances of 'NoneType' and 'str'")
    (lit "TypeError(...)").

(** [a < b] on [Optional[str]]: defined between two strings only. *)
Definition label_lt (a b : option str) : res bool :=
  match a, b with
  | Some x, Some y => Ok (Str.ltb x y)
  | _, _ => Raise type_error
  end.

(** Insertion after every element not greater than [x], as a stable sort
    places it. *)
Fixpoint insert_label (x : option str) (sorted : list (option str))
  : res (list (option str)) :=
  match sorted with
  | [] => Ok [x]
  | y :: rest =>
      res_bind (label_lt x y) (fun lt =>
        if lt then Ok (x :: y :: rest)
        else res_bind (insert_label x rest) (fun r => Ok (y :: r)))
  end.

Fixpoint sort_into (acc : list (option str)) (l : list (option str))
  : res (list (option str)) :=
  match l with
  | [] => Ok acc
  | x :: l' => res_bind (insert_label x acc) (fun acc' => sort_into acc' l')
  end.

(** [sorted(xs)], as an insertion sort over [<]. *)
Definition py_sorted (l : list (option str)) : res (list (option str)) :=
  sort_into [] l.

(** [{r.difficulty_scale for r in results}], in some enumeration order. *)
Definition label_set (results : list Result.t) : list (option str) :=
  nodup label_eq_dec (map Result.difficulty_scale results).

Definition bucket_of (results : list Result.t) (k : option str)
  : Summary.bucket :=
  Summary.mk_bucket
    (count_if (fun r => Result.passed r
                        && label_eqb (Result.difficulty_scale r) k) results)
    (count_if (fun r => label_eqb (Result.difficulty_scale r) k) results).

(** The dict comprehension under ["by_difficulty"]. *)
Definition by_difficulty (results : list Result.t)
  : res (list (option str * Summary.bucket)) :=
  res_bind (py_sorted (label_set results)) (fun keys =>
    Ok (map (fun k => (k, bucket_of results k)) keys)).

Definition summary_path (out_root : str) : str :=
  path_join out_root (lit "summary.json").
Definition csv_path_of (out_root : str) : str :=
  path_join out_root (lit "results.csv").

Definition index_error : exn :=
  mk_exn IndexError (lit "list index out of range") (lit "IndexError(...)").

(** Everything after the loop. *)
Definition summarize_and_persist (args : Args.t) (run_ts out_root : str)
           (results : list Result.t) : M Summary.t :=
  let passed_n := count_if Result.passed results in
  let total_n := length results in
  let pass_at_1 := pass_ratio passed_n total_n in
  (* [with csv_path.open("w", ...) as f]: the file exists, empty, from here *)
  write_text (csv_path_of out_root) [] ;;;
  (* [asdict(results[0])] *)
  _ <- match results with
       | [] => raise index_error
       | _ :: _ => ret tt
       end ;;
  write_text (csv_path_of out_root) (csv_dumps Result.fieldnames results) ;;;
  by_diff <- lift (by_difficulty results) ;;
  let summary := Summary.mk (Args.model args) (Args.dataset args)
                            (Args.split args) run_ts pass_at_1 passed_n
                            total_n by_diff in
  write_text (summary_path out_root) (json_dumps summary) ;;;
  ret summary.

Definition out_root_of (args : Args.t) (run_ts : str) : str :=
  path_join (Args.outdir args)
    (path_name (Args.dataset args) ++ lit "_" ++ run_ts ++ lit "_"
     ++ replace_char "/"%char "_"%char (Args.model args)).

Definition evaluate (args : Args.t) : M unit :=
  let run_ts := now_stamp in
  let out_root := out_root_of args run_ts in
  let gens_dir := path_join out_root (lit "generations") in
  new_client ;;;
  tasks <- lift (load_tasks (Args.dataset args) (Args.split args)
                            (Args.max_items args)) ;;
  results <- for_tasks args gens_dir tasks [] ;;
  summarize_and_persist args run_ts out_root results ;;;
  ret tt.

End Driver.


(** * Vocabulary of the statements *)

(** A space character, and a difficulty label that is present. *)
Definition IsSpace (c : ascii) : Prop := Str.is_space c = true.
Definition IsLabel (x : option str) : Prop := x <> None.

(** The three dataset and model texts occur in [p] in this order, without
    overlap. *)
Definition InOrder3 (x y z p : str) : Prop :=
  exists a b c d, p = a ++ x ++ b ++ y ++ c ++ z ++ d.

Definition HEAD_PROMPT : str := unlines [lit "# === BEGIN PROMPT (dataset) ==="].
Definition HEAD_COMPLETION : str :=
  [nl; nl] ++ unlines [lit "# === BEGIN MODEL COMPLETION ==="].
Definition HEAD_TEST : str :=
  [nl; nl] ++ unlines [lit "# === BEGIN TEST CODE (dataset) ==="].
Definition HARNESS_OPEN : str :=
  [nl; nl]
  ++ unlines [lit "# === HARNESS ===";
              lit "def __run_check():";
              lit "    # Import the solution function by name and run dataset's check()"]
  ++ lit "    return check(".
Definition HARNESS_CLOSE : str :=
  unlines
    [lit ")";
     [];
     lit "if __name__ == " ++ [dq] ++ lit "__main__" ++ [dq] ++ lit ":";
     lit "    try:";
     lit "        __run_check()";
     lit "        print(" ++ [dq] ++ QHE_PASS ++ [dq] ++ lit ")";
     lit "    except Exception as e:";
     lit "        print(" ++ [dq] ++ QHE_FAIL ++ [dq] ++ lit " + repr(e))"].


(** What the matcher computes on the shapes the two patterns are made of. *)

(** A lazy dot-star followed by [k]: the shortest suffix [k] accepts. *)
Fixpoint lazy_any {R} (k : str -> option R) (s : str) : option R :=
  Re.orelse (k s)
    (match s with
     | [] => None
     | _ :: s' => lazy_any k s'
     end).

(** A greedy dot-star followed by [k]: the longest consumption [k] accepts. *)
Fixpoint greedy_any {R} (k : str -> option R) (s : str) : option R :=
  Re.orelse
    (match s with
     | [] => None
     | _ :: s' => greedy_any k s'
     end)
    (k s).

(** A greedy run of spaces followed by [k]. *)
Fixpoint greedy_space {R} (k : str -> option R) (s : str) : option R :=
  Re.orelse
    (match s with
     | [] => None
     | c :: s' => if Str.is_space c then greedy_space k s' else None
     end)
    (k s).

(** The text before the leftmost occurrence of [needle], if there is one. *)
Fixpoint until (needle s : str) : option str :=
  if Str.startswith needle s then Some []
  else match s with
       | [] => None
       | c :: s' => option_map (cons c) (until needle s')
       end.

(** The text after the leftmost occurrence of [needle], if there is one. *)
Fixpoint after (needle s : str) : option str :=
  if Str.startswith needle s then Some (skipn (length needle) s)
  else match s with
       | [] => None
       | _ :: s' => after needle s'
       end.

(** The text [classify] works on: [p.stdout or ""]. *)
Definition captured (o : option str) : str :=
  match o with
  | Some s => s
  | None => []
  end.

(** The fallback error of [classify]. *)
Definition raw_output_error (raw : str) : str :=
  lit "RuntimeError: " ++ firstn 5000 (Str.strip raw).

(** The script file of the call made in world [w], and the launch that
    [run_in_subprocess] hands to [subprocess.run] for it. *)
Definition src_of (mkdtemp : nat -> str) (w : World) : str :=
  path_join (mkdtemp (tmp_made w)) (lit "eval_task.py").

Definition launched (sys_executable : str) (mkdtemp : nat -> str)
           (timeout_sec : Z) (w : World) : Launch :=
  mk_launch [sys_executable; lit "-I"; lit "-B"; src_of mkdtemp w]
            true timeout_sec true (environ w).

(** The child ran past the timeout. *)
Definition Overruns (b : child_behaviour) (timeout_sec : Z) : Prop :=
  match b with
  | Exits _ _ d => Qle_bool d (inject_Z timeout_sec) = false
  | Hangs => True
  | LaunchFails _ => False
  end.

(** [f"Timeout({timeout_sec}s)"] *)
Definition timeout_message (timeout_sec : Z) : str :=
  lit "Timeout(" ++ Str.of_int timeout_sec ++ lit "s)".

(** The fallback error read the way the specification words it: a prefix of
    the captured output. *)
Definition FallbackIsOutputPrefix (o : option str) (rc : Z) : Prop :=
  exists e,
    classify (mk_completed o rc) = (false, Some e)
    /\ Str.startswith e (captured o) = true.

(** Concrete worlds and oracles for the worked instances. *)
Module Fixture.

Definition python : str := lit "/usr/bin/python3".

Definition mkdtemp (n : nat) : str := lit "/tmp/tmp" ++ Str.of_int (Z.of_nat n).

Definition w0 : World :=
  mk_world [] [(lit "OPENAI_API_KEY", lit "sk-test"); (lit "HOME", lit "/root")]
           0%Q [] 0 0 0.

(** A child that prints [out] and exits with [rc] after one second. *)
Definition prints (out : str) (rc : Z)
  : nat -> Launch -> option str -> child_behaviour :=
  fun _ _ _ => Exits (Some out) rc 1%Q.

(** A child that never ends. *)
Definition hangs : nat -> Launch -> option str -> child_behaviour :=
  fun _ _ _ => Hangs.

Definition failing_output : str :=
  lit "warming up" ++ [nl] ++ lit "___QHE_FAIL___:ValueError('x')" ++ [nl].

Definition both_output : str :=
  lit "___QHE_FAIL___:AssertionError()" ++ [nl] ++ lit "___QHE_PASS___" ++ [nl].

End Fixture.

(** *** Fenced code blocks *)

Definition LANG : str := lit "python".

(** What group 1 captures once the opening fence and the language tag are
    consumed: the text up to the next fence, leading spaces dropped. *)
Definition body_after (s : str) : option str := until FENCE (Str.lstrip s).

(** What [CODE_BLOCK_RE] captures when matched at the start of [s]. *)
Definition block_here (s : str) : option str :=
  if Str.startswith FENCE s then
    let s1 := skipn (length FENCE) s in
    Re.orelse
      (if Str.startswith LANG s1 then body_after (skipn (length LANG) s1)
       else None)
      (body_after s1)
  else None.

Fixpoint find_block (s : str) : option str :=
  match block_here s with
  | Some g => Some g
  | None =>
      match s with
      | [] => None
      | _ :: s' => find_block s'
      end
  end.

(** [text] holds two fences that do not overlap. *)
Definition HasFencedBlock (text : str) : Prop :=
  exists a b c, text = a ++ FENCE ++ b ++ FENCE ++ c.

(** The first fenced block of [text]: [pre] ends where the leftmost fence
    starts, [tag] is the language tag [python] when it follows the fence
    directly, [interior] runs up to the next fence. *)
Definition FirstFencedBlock (text pre tag interior post : str) : Prop :=
  FirstOcc FENCE text pre (tag ++ interior ++ FENCE ++ post)
  /\ (tag = LANG
      \/ (tag = [] /\ Str.startswith LANG (interior ++ FENCE ++ post) = false))
  /\ FirstOcc FENCE (interior ++ FENCE ++ post) interior post.

(** *** Loading tasks *)




Module DataFixture.

Definition row_a : row :=
  [(lit "task_id", Some (lit "qiskitHumanEval/0"));
   (lit "entry_point", Some (lit "add"));
   (lit "prompt", Some (lit "def add(a, b):"));
   (lit "test", Some (lit "def check(c): pass"));
   (lit "difficulty_scale", Some (lit "basic"))].

(** A row of a dataset that has neither a [task_id] nor a
    [difficulty_scale] column. *)
Definition row_b : row :=
  [(lit "entry_point", Some (lit "div"));
   (lit "prompt", Some (lit "def div(a, b):"));
   (lit "test", Some (lit "def check(c): pass"))].

(** A row without [test]. *)
Definition row_bad : row :=
  [(lit "entry_point", Some (lit "slow"));
   (lit "prompt", Some (lit "def slow():"))].


Definition load_dataset (dataset split : str) : res (list row) :=
  Ok [row_a; row_b; row_bad].

(** Two rows, both labelled. *)
Definition load_labelled (dataset split : str) : res (list row) :=
  Ok [row_a;
      (lit "difficulty_scale", Some (lit "intermediate")) :: row_b].


Definition unavailable (dataset split : str) : res (list row) :=
  Raise (mk_exn DatasetLoadError (lit "dataset not found")
                (lit "DatasetNotFoundError(...)")).

End DataFixture.

(** *** Summary and persistence *)

Module RunFixture.

Definition args : Args.t :=
  Args.mk (lit "gpt-4.1-mini") (lit "Qiskit/qiskit_humaneval") (lit "test")
          None 0%float 1%float 800 42 1 45 (lit "out") false.

(** The same command line with [--max-items 0]. *)
Definition args_no_items : Args.t :=
  Args.mk (lit "gpt-4.1-mini") (lit "Qiskit/qiskit_humaneval") (lit "test")
          (Some 0%Z) 0%float 1%float 800 42 1 45 (lit "out") false.

Definition run_ts : str := lit "20250101_120000".

Definition out_root : str := out_root_of args run_ts.

Definition csv_dumps (header : list str) (rows : list Result.t) : str :=
  Str.join (lit ",") header.

Definition json_dumps (s : Summary.t) : str := lit "{...}".

Definition result (tid : str) (passed : bool) (label : option str) : Result.t :=
  Result.mk (Some tid) (Some (lit "f")) passed None None 10 20 1%Q label
            (lit "gpt-4.1-mini") (lit "out/gen.py").

(** One task without a difficulty label, one labelled [basic]. *)
Definition mixed : list Result.t :=
  [result (lit "0") true None; result (lit "1") false (Some (lit "basic"))].

Definition labelled : list Result.t :=
  [result (lit "0") true (Some (lit "intermediate"));
   result (lit "1") false (Some (lit "basic"));
   result (lit "2") true (Some (lit "basic"))].

(** A model API that is down: every request ends in a connection error. *)
Definition api_down (n : nat) (rq : Request) : res Response :=
  Raise (mk_exn APIConnectionError (lit "Connection error.")
                (lit "APIConnectionError(...)")).

(** An error of the SDK that is not an [APIError]. *)
Definition sdk_error : exn :=
  mk_exn OpenAIError (lit "client error") (lit "OpenAIError(...)").

(** A client whose every call ends in that error. *)
Definition client_broken (n : nat) (rq : Request) : res Response :=
  Raise sdk_error.

(** The world of [Fixture.w0] without the API key. *)
Definition w_no_key : World :=
  mk_world [] [(lit "HOME", lit "/root")] 0%Q [] 0 0 0.

End RunFixture.

(** The summary file is as it was before the step. *)
Definition SummaryUntouched (out_root : str) (before after : World) : Prop :=
  fs_lookup (summary_path out_root) (files after)
  = fs_lookup (summary_path out_root) (files before).

(** The child's environment read the way the specification words it: the
    model API key of the parent is not in it. *)
Definition ChildEnvWithholdsApiKey (sys_executable src : str)
           (timeout_sec : Z) (w : World) : Prop :=
  Format.lookup (lit "OPENAI_API_KEY")
                (env (launch_of sys_executable src timeout_sec w)) = None.

(** A child that prints the API key it finds in its environment. *)
Definition prints_api_key : nat -> Launch -> option str -> child_behaviour :=
  fun _ l _ => Exits (Format.lookup (lit "OPENAI_API_KEY") (env l)) 0 1%Q.

(** *** Failures of the model API *)

(** A transport or protocol failure of the model API: an instance of the
    SDK's [APIError]. *)
Definition ApiFailure (e : exn) : Prop := isinstance e APIError = true.

(** The request [call_openai] sends for a task whose prompt is the string
    [prompt]. *)
Definition request_of (args : Args.t) (prompt : str) : Request :=
  mk_request (Args.model args) SYSTEM_INSTRUCTIONS
             (prompt ++ USER_SUFFIX)
             (Args.temperature args) (Args.top_p args)
             (Args.max_output_tokens args).

(** The prompt of task [t] is a string. *)
Definition HasPrompt (t : Task.t) : Prop := Task.prompt t <> None.

(** No saved completion is reused for this task. *)
Definition NotReused (args : Args.t) (gen_path : str) (w : World) : Prop :=
  Args.dry_run args = false \/ fs_lookup gen_path (files w) = None.

(** The world once the empty completion is saved after a failed call. *)
Definition after_failed_call (gen_path : str) (w : World) : World :=
  mk_world ((gen_path, []) :: files w) (environ w) (clock w) (live w)
           (spawned w) (tmp_made w) (S (api_calls w)).

(** When the model API raises, it raises an API failure. *)
Definition ApiRaisesApiFailures
           (responses_create : nat -> Request -> res Response) : Prop :=
  forall n rq e, responses_create n rq = Raise e -> ApiFailure e.

(** The closing clause of the claim, read on one run: when the run is
    aborted, it is because the dataset could not be loaded. *)
Definition OnlyDatasetFailureAborts
           (load_dataset : str -> str -> res (list row)) (args : Args.t)
           (run : res unit * World) : Prop :=
  forall e, fst run = Raise e ->
            load_dataset (Args.dataset args) (Args.split args) = Raise e.

(** When starting a child fails, it fails with an [Exception]. *)
Definition LaunchRaisesExceptions
           (child : nat -> Launch -> option str -> child_behaviour) : Prop :=
  forall pid l script e,
    child pid l script = LaunchFails e -> isinstance e PyException = true.

(** Labels that [sorted] can order: all present, or all absent. *)
Definition Sortable (labels : list (option str)) : Prop :=
  Forall IsLabel labels \/ Forall (fun x => x = None) labels.

(** * Properties *)

Unset Implicit Arguments.

(** ** Worked examples *)

Example extract_fenced :
  extract_code_only (lit "Here:" ++ [nl] ++ lit "```python" ++ [nl]
                     ++ lit "def f(): pass" ++ [nl] ++ lit "``` done")
  = lit "def f(): pass".
Proof. vm_compute. reflexivity. Qed.

Example extract_plain :
  extract_code_only (lit "  def f(): pass " ++ [nl]) = lit "def f(): pass".
Proof. vm_compute. reflexivity. Qed.

Example extract_unclosed :
  extract_code_only (lit "```python x = 1") = lit "```python x = 1".
Proof. vm_compute. reflexivity. Qed.

(** ** Assembly *)

Lemma assemble_eq (t : Task.t) (completion_text : str) :
  assemble t completion_text
  = Ok (HEAD_PROMPT ++ py_str (Task.prompt t) ++ HEAD_COMPLETION
        ++ completion_text ++ HEAD_TEST ++ py_str (Task.test t)
        ++ HARNESS_OPEN ++ py_str (Task.entry_point t) ++ HARNESS_CLOSE).
Proof.
  destruct t as [i tid ep pr te d]. unfold assemble.
  cbn [Task.prompt Task.test Task.entry_point].
  generalize (py_str pr) (py_str te) (py_str ep). intros prompt test entry.
  vm_compute. reflexivity.
Qed.

Lemma assemble_total (t : Task.t) (completion_text : str) :
  exists program, assemble t completion_text = Ok program.
Proof. eexists. apply assemble_eq. Qed.

(** C1. Assembling the program never fails, whatever the task and the
    completion are, and the assembled text contains the prompt, the completion
    and the test code as contiguous substrings, in that order; a prompt or a
    test that is [None] goes in as [str.format] renders it.  [assemble] is
    a function of its two arguments alone: it takes no world and returns
    none. *)
Theorem assemble_total_in_order (t : Task.t) (completion_text : str) :
  exists program,
    assemble t completion_text = Ok program
    /\ InOrder3 (py_str (Task.prompt t)) completion_text
                (py_str (Task.test t)) program.
Proof.
  eexists. split; [apply assemble_eq|].
  exists HEAD_PROMPT, HEAD_COMPLETION, HEAD_TEST,
    (HARNESS_OPEN ++ py_str (Task.entry_point t) ++ HARNESS_CLOSE).
  reflexivity.
Qed.

(** ** Strings *)

Lemma startswith_iff (p s : str) :
  Str.startswith p s = true <-> exists r, s = p ++ r.
Proof.
  revert s. induction p as [|a p IH]; intros s; simpl.
  - split; [intros _; exists s; reflexivity | reflexivity].
  - destruct s as [|b s].
    + split; [discriminate | intros [r H]; discriminate].
    + rewrite andb_true_iff, Ascii.eqb_eq, IH. split.
      * intros [-> [r ->]]. exists r. reflexivity.
      * intros [r H]. injection H as -> ->.
        split; [reflexivity | exists r; reflexivity].
Qed.

Lemma startswith_app (p r : str) : Str.startswith p (p ++ r) = true.
Proof. apply startswith_iff. exists r. reflexivity. Qed.

Lemma startswith_skipn (p s : str) :
  Str.startswith p s = true -> s = p ++ skipn (length p) s.
Proof.
  intros H. apply startswith_iff in H. destruct H as [r ->].
  rewrite skipn_app, skipn_all, Nat.sub_diag. reflexivity.
Qed.

Lemma contains_iff (needle hay : str) :
  Str.contains needle hay = true <-> Substring needle hay.
Proof.
  induction hay as [|c hay IH]; simpl.
  - rewrite orb_false_r, startswith_iff. split.
    + intros [r H]. exists [], r. exact H.
    + intros [a [b H]]. symmetry in H.
      apply app_eq_nil in H. destruct H as [-> H].
      apply app_eq_nil in H. destruct H as [-> ->]. exists []. reflexivity.
  - rewrite orb_true_iff, startswith_iff, IH. split.
    + intros [[r H] | [a [b H]]].
      * exists [], r. exact H.
      * exists (c :: a), b. rewrite H. reflexivity.
    + intros [[|a0 a] [b H]].
      * left. exists b. exact H.
      * right. injection H as -> H. exists a, b. exact H.
Qed.

Lemma contains_false_iff (needle hay : str) :
  Str.contains needle hay = false <-> ~ Substring needle hay.
Proof.
  rewrite <- contains_iff. destruct (Str.contains needle hay); split; intros H;
    try reflexivity; try discriminate; try (intros H'; discriminate).
  exfalso. apply H. reflexivity.
Qed.

Lemma substring_rev (n h : str) : Substring n h -> Substring (rev n) (rev h).
Proof.
  intros [a [b ->]]. exists (rev b), (rev a).
  rewrite !rev_app_distr, app_assoc. reflexivity.
Qed.

Lemma substring_trans (n m h : str) :
  Substring n m -> Substring m h -> Substring n h.
Proof.
  intros [a [b ->]] [c [d ->]]. exists (c ++ a), (b ++ d).
  rewrite <- !app_assoc. reflexivity.
Qed.

Lemma lstrip_split (s : str) :
  exists ws, s = ws ++ Str.lstrip s /\ Forall IsSpace ws.
Proof.
  induction s as [|c s [ws [E F]]]; simpl.
  - exists []. split; [reflexivity | constructor].
  - destruct (Str.is_space c) eqn:Hc.
    + exists (c :: ws). split; [simpl; f_equal; exact E | constructor; assumption].
    + exists []. split; [reflexivity | constructor].
Qed.

Lemma lstrip_head (s : str) (c : ascii) (r : str) :
  Str.lstrip s = c :: r -> Str.is_space c = false.
Proof.
  induction s as [|a s IH]; simpl; [discriminate|].
  destruct (Str.is_space a) eqn:Ha; [exact IH|].
  intros H. injection H as <- _. exact Ha.
Qed.

Lemma lstrip_spaces (ws s : str) :
  Forall IsSpace ws -> Str.lstrip (ws ++ s) = Str.lstrip s.
Proof.
  induction 1 as [|c ws Hc _ IH]; simpl; [reflexivity|].
  unfold IsSpace in Hc. rewrite Hc. exact IH.
Qed.

Lemma lstrip_idem (s : str) : Str.lstrip (Str.lstrip s) = Str.lstrip s.
Proof.
  induction s as [|c s IH]; simpl; [reflexivity|].
  destruct (Str.is_space c) eqn:Hc; [exact IH|]. simpl. rewrite Hc. reflexivity.
Qed.

Lemma lstrip_app_stop (x : str) (c : ascii) (y : str) :
  Str.is_space c = false -> Str.lstrip (x ++ c :: y) = Str.lstrip x ++ c :: y.
Proof.
  intros Hc. induction x as [|a x IH]; simpl.
  - rewrite Hc. reflexivity.
  - destruct (Str.is_space a); [exact IH | reflexivity].
Qed.

Lemma strip_split (s : str) :
  exists l r, s = l ++ Str.strip s ++ r /\ Forall IsSpace l /\ Forall IsSpace r.
Proof.
  unfold Str.strip, Str.rstrip.
  destruct (lstrip_split s) as [l [E Fl]].
  destruct (lstrip_split (rev (Str.lstrip s))) as [r [E' Fr]].
  exists l, (rev r). split; [|split].
  - rewrite E at 1. f_equal.
    rewrite <- (rev_involutive (Str.lstrip s)) at 1.
    rewrite E' at 1. rewrite rev_app_distr. reflexivity.
  - exact Fl.
  - apply Forall_rev. exact Fr.
Qed.

Lemma strip_spaces_left (ws s : str) :
  Forall IsSpace ws -> Str.strip (ws ++ s) = Str.strip s.
Proof. intros H. unfold Str.strip. rewrite lstrip_spaces by exact H. reflexivity. Qed.

Lemma strip_lstrip (s : str) : Str.strip (Str.lstrip s) = Str.strip s.
Proof. unfold Str.strip. rewrite lstrip_idem. reflexivity. Qed.

(** A needle that starts with a non-space character survives [lstrip]. *)
Lemma substring_lstrip (c : ascii) (n h : str) :
  Str.is_space c = false ->
  Substring (c :: n) h -> Substring (c :: n) (Str.lstrip h).
Proof.
  intros Hc. induction h as [|a h IH]; simpl; intros H; [exact H|].
  destruct (Str.is_space a) eqn:Ha; [|exact H].
  apply IH. destruct H as [[|a0 p] [q H]].
  - injection H as -> _. congruence.
  - injection H as _ H. exists p, q. exact H.
Qed.

Lemma substring_strip_back (n h : str) :
  Substring n (Str.strip h) -> Substring n h.
Proof.
  intros H. eapply substring_trans; [exact H|].
  destruct (strip_split h) as [l [r [E _]]]. exists l, r. exact E.
Qed.

(** A needle whose first and last characters are not spaces occurs in the
    stripped text exactly when it occurs in the text. *)
Lemma substring_strip (n h : str) (c d : ascii) (n1 n2 : str) :
  n = c :: n1 -> rev n = d :: n2 ->
  Str.is_space c = false -> Str.is_space d = false ->
  Substring n h -> Substring n (Str.strip h).
Proof.
  intros En Er Hc Hd H. unfold Str.strip, Str.rstrip.
  rewrite <- (rev_involutive n).
  apply substring_rev. rewrite Er. apply substring_lstrip; [exact Hd|].
  rewrite <- Er. apply substring_rev.
  rewrite En. apply substring_lstrip; [exact Hc|]. rewrite <- En. exact H.
Qed.

(** ** The matcher on literals and stars *)

Lemma orelse_none_r {A} (x : option A) : Re.orelse x None = x.
Proof. destruct x; reflexivity. Qed.

Lemma run_Lit {R} (l s : str) (g : option str) (k : Re.cont R) :
  Re.run (Re.Lit l) s g k
  = if Str.startswith l s then k (skipn (length l) s) g else None.
Proof.
  revert s. induction l as [|c l IH]; intros s; simpl; [reflexivity|].
  destruct s as [|b s]; [reflexivity|].
  destruct (Ascii.eqb c b); simpl; [apply IH | reflexivity].
Qed.

Lemma star_lazy_any {R} (k : Re.cont R) (g : option str) (fuel : nat) (s : str) :
  length s <= fuel ->
  Re.star_loop (Re.run Re.Any) false k fuel s g
  = lazy_any (fun s' => k s' g) s.
Proof.
  revert s. induction fuel as [|fuel IH]; intros s Hs.
  - destruct s; [|simpl in Hs; lia]. simpl. rewrite orelse_none_r. reflexivity.
  - destruct s as [|c s]; simpl.
    + reflexivity.
    + assert (E : (length s <? S (length s)) = true) by (apply Nat.ltb_lt; lia).
      rewrite E, IH by (simpl in Hs; lia). reflexivity.
Qed.

Lemma star_greedy_any {R} (k : Re.cont R) (g : option str) (fuel : nat) (s : str) :
  length s <= fuel ->
  Re.star_loop (Re.run Re.Any) true k fuel s g
  = greedy_any (fun s' => k s' g) s.
Proof.
  revert s. induction fuel as [|fuel IH]; intros s Hs.
  - destruct s; [|simpl in Hs; lia]. reflexivity.
  - destruct s as [|c s]; simpl.
    + reflexivity.
    + assert (E : (length s <? S (length s)) = true) by (apply Nat.ltb_lt; lia).
      rewrite E, IH by (simpl in Hs; lia). reflexivity.
Qed.

Lemma star_greedy_space {R} (k : Re.cont R) (g : option str) (fuel : nat) (s : str) :
  length s <= fuel ->
  Re.star_loop (Re.run Re.Space) true k fuel s g
  = greedy_space (fun s' => k s' g) s.
Proof.
  revert s. induction fuel as [|fuel IH]; intros s Hs.
  - destruct s; [|simpl in Hs; lia]. reflexivity.
  - destruct s as [|c s]; simpl.
    + reflexivity.
    + assert (E : (length s <? S (length s)) = true) by (apply Nat.ltb_lt; lia).
      destruct (Str.is_space c); [|reflexivity].
      rewrite E, IH by (simpl in Hs; lia). reflexivity.
Qed.

(** The greedy dot-star reaches the end of the subject first. *)
Lemma greedy_any_end {R} (k : str -> option R) (s : str) (v : R) :
  k [] = Some v -> greedy_any k s = Some v.
Proof.
  intros H. induction s as [|c s IH]; simpl; [exact H|].
  rewrite IH. reflexivity.
Qed.

(** [until] and [after] against the declarative split. *)

Lemma first_occ_nil (needle post : str) :
  FirstOcc needle (needle ++ post) [] post.
Proof. split; [reflexivity | intros; simpl; lia]. Qed.

Lemma first_occ_at_start (needle s post : str) :
  s = needle ++ post -> FirstOcc needle s [] post.
Proof. intros ->. apply first_occ_nil. Qed.

Lemma first_occ_tail (needle : str) (c : ascii) (s pre post : str) :
  FirstOcc needle (c :: s) (c :: pre) post -> FirstOcc needle s pre post.
Proof.
  intros [E M]. split.
  - injection E as E. exact E.
  - intros a b H. specialize (M (c :: a) b). simpl in M.
    rewrite H in M. specialize (M eq_refl). lia.
Qed.

Lemma first_occ_cons (needle : str) (c : ascii) (s pre post : str) :
  Str.startswith needle (c :: s) = false ->
  FirstOcc needle s pre post -> FirstOcc needle (c :: s) (c :: pre) post.
Proof.
  intros Hn [E M]. split.
  - rewrite E. reflexivity.
  - intros [|a0 a] b H.
    + exfalso. assert (Str.startswith needle (c :: s) = true)
        by (apply startswith_iff; exists b; exact H). congruence.
    + injection H as _ H. specialize (M a b H). simpl. lia.
Qed.

Lemma first_occ_head (needle s pre post : str) :
  FirstOcc needle s pre post ->
  Str.startswith needle s = true -> pre = [].
Proof.
  intros [E M] H. apply startswith_iff in H. destruct H as [r H].
  specialize (M [] r H). destruct pre; [reflexivity | simpl in M; lia].
Qed.

Lemma first_occ_start (needle s pre post : str) :
  FirstOcc needle s pre post ->
  pre <> [] -> Str.startswith needle s = false.
Proof.
  intros H Hp. destruct (Str.startswith needle s) eqn:E; [|reflexivity].
  exfalso. apply Hp. eapply first_occ_head; eassumption.
Qed.

Lemma until_cons (needle : str) (c : ascii) (s : str) :
  until needle (c :: s)
  = if Str.startswith needle (c :: s) then Some []
    else option_map (cons c) (until needle s).
Proof. reflexivity. Qed.

Lemma after_cons (needle : str) (c : ascii) (s : str) :
  after needle (c :: s)
  = if Str.startswith needle (c :: s)
    then Some (skipn (length needle) (c :: s))
    else after needle s.
Proof. reflexivity. Qed.

Lemma until_start (needle s : str) :
  Str.startswith needle s = true -> until needle s = Some [].
Proof. intros H. destruct s; [simpl | rewrite until_cons]; rewrite H; reflexivity. Qed.

Lemma after_start (needle s : str) :
  Str.startswith needle s = true ->
  after needle s = Some (skipn (length needle) s).
Proof. intros H. destruct s; [simpl | rewrite after_cons]; rewrite H; reflexivity. Qed.

Lemma until_first_occ (needle s pre post : str) :
  FirstOcc needle s pre post -> until needle s = Some pre.
Proof.
  revert s. induction pre as [|c pre IH]; intros s H.
  - destruct H as [-> _]. simpl app. apply until_start, startswith_app.
  - pose proof (first_occ_start _ _ _ _ H ltac:(discriminate)) as Hn.
    destruct s as [|c' s]; [destruct H as [E _]; discriminate|].
    assert (c' = c) as -> by (destruct H as [E _]; injection E; auto).
    rewrite until_cons, Hn, (IH s (first_occ_tail _ _ _ _ _ H)). reflexivity.
Qed.

Lemma after_first_occ (needle s pre post : str) :
  FirstOcc needle s pre post -> after needle s = Some post.
Proof.
  revert s. induction pre as [|c pre IH]; intros s H.
  - destruct H as [-> _]. simpl app. rewrite after_start by apply startswith_app.
    rewrite skipn_app, skipn_all, Nat.sub_diag. reflexivity.
  - pose proof (first_occ_start _ _ _ _ H ltac:(discriminate)) as Hn.
    destruct s as [|c' s]; [destruct H as [E _]; discriminate|].
    assert (c' = c) as -> by (destruct H as [E _]; injection E; auto).
    rewrite after_cons, Hn. apply IH, (first_occ_tail _ _ _ _ _ H).
Qed.

Lemma until_some (needle s pre : str) :
  until needle s = Some pre ->
  exists post, FirstOcc needle s pre post.
Proof.
  revert pre. induction s as [|c s IH]; intros pre.
  - simpl. destruct (Str.startswith needle []) eqn:E; [|discriminate].
    intros H. injection H as <-.
    apply startswith_iff in E. destruct E as [r E]. exists r.
    apply first_occ_at_start, E.
  - rewrite until_cons. destruct (Str.startswith needle (c :: s)) eqn:E.
    + intros H. injection H as <-.
      apply startswith_iff in E. destruct E as [r E]. exists r.
      apply first_occ_at_start, E.
    + destruct (until needle s) as [p|] eqn:U; [|discriminate].
      intros H. injection H as <-.
      destruct (IH p eq_refl) as [post F]. exists post.
      apply first_occ_cons; assumption.
Qed.

Lemma until_none (needle s : str) :
  until needle s = None <-> ~ Substring needle s.
Proof.
  rewrite <- contains_false_iff.
  induction s as [|c s IH].
  - change (until needle []) with
      (if Str.startswith needle [] then Some (@nil ascii) else None).
    change (Str.contains needle []) with (Str.startswith needle [] || false).
    destruct (Str.startswith needle []); simpl; split; intro;
      first [discriminate | reflexivity].
  - rewrite until_cons.
    change (Str.contains needle (c :: s)) with
      (Str.startswith needle (c :: s) || Str.contains needle s).
    destruct (Str.startswith needle (c :: s)); simpl; [split; intro; discriminate|].
    rewrite <- IH. destruct (until needle s); simpl; split; intro;
      first [discriminate | assumption | reflexivity].
Qed.

Lemma first_occ_exists (needle s : str) :
  Substring needle s -> exists pre post, FirstOcc needle s pre post.
Proof.
  intros H. destruct (until needle s) as [pre|] eqn:U.
  - destruct (until_some _ _ _ U) as [post F]. exists pre, post. exact F.
  - apply until_none in U. contradiction.
Qed.

Lemma first_occ_unique (needle s pre post pre' post' : str) :
  FirstOcc needle s pre post -> FirstOcc needle s pre' post' ->
  pre = pre' /\ post = post'.
Proof.
  intros H H'. pose proof (until_first_occ _ _ _ _ H) as U.
  pose proof (after_first_occ _ _ _ _ H) as A.
  rewrite (until_first_occ _ _ _ _ H') in U. rewrite (after_first_occ _ _ _ _ H') in A.
  split; congruence.
Qed.

(** ** The failure pattern *)

Lemma match_here_fail (s : str) :
  Re.match_here FAIL_RE s
  = if Str.startswith QHE_FAIL s
    then Some (Some (skipn (length QHE_FAIL) s))
    else None.
Proof.
  unfold Re.match_here, FAIL_RE. cbn [Re.run]. rewrite run_Lit.
  destruct (Str.startswith QHE_FAIL s); [|reflexivity].
  set (s1 := skipn (length QHE_FAIL) s).
  rewrite star_greedy_any by lia.
  apply greedy_any_end. simpl. rewrite Nat.sub_0_r, firstn_all. reflexivity.
Qed.

Lemma search_fail (s : str) :
  Re.search FAIL_RE s = option_map Some (after QHE_FAIL s).
Proof.
  induction s as [|c s IH].
  - reflexivity.
  - change (Re.search FAIL_RE (c :: s)) with
      (match Re.match_here FAIL_RE (c :: s) with
       | Some g => Some g
       | None => Re.search FAIL_RE s
       end).
    rewrite match_here_fail, after_cons.
    destruct (Str.startswith QHE_FAIL (c :: s)); [reflexivity | exact IH].
Qed.

Lemma after_none (needle s : str) :
  ~ Substring needle s -> after needle s = None.
Proof.
  intros H. destruct (after needle s) as [p|] eqn:A; [|reflexivity].
  exfalso. apply H. clear H. revert p A.
  induction s as [|c s IH]; intros p.
  - simpl. destruct (Str.startswith needle []) eqn:E; [|discriminate].
    intros _. apply contains_iff. simpl. rewrite E. reflexivity.
  - rewrite after_cons. destruct (Str.startswith needle (c :: s)) eqn:E.
    + intros _. apply contains_iff.
      change (Str.contains needle (c :: s)) with
        (Str.startswith needle (c :: s) || Str.contains needle s).
      rewrite E. reflexivity.
    + intros A. destruct (IH p A) as [a [b ->]]. exists (c :: a), b. reflexivity.
Qed.

(** ** Trailing and leading spaces around an occurrence *)

Lemma first_occ_drop_spaces (c : ascii) (n ws s pre post : str) :
  Str.is_space c = false -> Forall IsSpace ws ->
  FirstOcc (c :: n) (ws ++ s) pre post ->
  exists pre', pre = ws ++ pre' /\ FirstOcc (c :: n) s pre' post.
Proof.
  intros Hc Hws. revert pre. induction Hws as [|w ws Hw _ IH]; intros pre H.
  - exists pre. split; [reflexivity | exact H].
  - destruct pre as [|p pre].
    + destruct H as [E _]. injection E as -> _. unfold IsSpace in Hw. congruence.
    + assert (p = w) as -> by (destruct H as [E _]; injection E; auto).
      destruct (IH pre (first_occ_tail _ _ _ _ _ H)) as [pre' [-> F]].
      exists pre'. split; [reflexivity | exact F].
Qed.

Lemma first_occ_drop_trailing (d : ascii) (n ws s pre post : str) :
  Str.is_space d = false -> Forall IsSpace ws ->
  FirstOcc (n ++ [d]) (s ++ ws) pre post ->
  exists post', post = post' ++ ws /\ FirstOcc (n ++ [d]) s pre post'.
Proof.
  intros Hd. revert post. induction ws as [|w ws IH] using rev_ind; intros post Hws H.
  - exists post. rewrite app_nil_r in *. split; [reflexivity | exact H].
  - apply Forall_app in Hws. destruct Hws as [Hws Hw].
    destruct H as [E M].
    assert (Hp : post <> []).
    { intros ->. rewrite app_nil_r in E.
      rewrite !app_assoc in E. apply app_inj_tail in E. destruct E as [_ E].
      inversion Hw as [|? ? Hw' _]; subst. unfold IsSpace in Hw'. congruence. }
    destruct (exists_last Hp) as [post0 [z ->]].
    rewrite !app_assoc in E. apply app_inj_tail in E. destruct E as [E ->].
    destruct (IH post0 Hws) as [post' [-> F]].
    + split; [rewrite E, <- !app_assoc; reflexivity|].
      intros a b Hab. apply (M a (b ++ [z])).
      rewrite app_assoc, Hab, <- !app_assoc. reflexivity.
    + exists post'. split; [rewrite <- app_assoc; reflexivity | exact F].
Qed.

Lemma rstrip_spaces (x ws : str) :
  Forall IsSpace ws -> Str.rstrip (x ++ ws) = Str.rstrip x.
Proof.
  intros H. unfold Str.rstrip. rewrite rev_app_distr.
  rewrite lstrip_spaces by (apply Forall_rev; exact H). reflexivity.
Qed.

Lemma lstrip_all_spaces (ws : str) : Forall IsSpace ws -> Str.lstrip ws = [].
Proof.
  induction 1 as [|c ws Hc _ IH]; simpl; [reflexivity|].
  unfold IsSpace in Hc. rewrite Hc. exact IH.
Qed.

Lemma lstrip_app_spaces (x ws : str) :
  Forall IsSpace ws ->
  Str.lstrip (x ++ ws) = Str.lstrip x ++ ws
  \/ (Str.lstrip x = [] /\ Str.lstrip (x ++ ws) = []).
Proof.
  intros H. induction x as [|a x IH]; simpl.
  - right. split; [reflexivity | apply lstrip_all_spaces, H].
  - destruct (Str.is_space a); [exact IH | left; reflexivity].
Qed.

Lemma strip_spaces_right (x ws : str) :
  Forall IsSpace ws -> Str.strip (x ++ ws) = Str.strip x.
Proof.
  intros H. unfold Str.strip.
  destruct (lstrip_app_spaces x ws H) as [E | [E1 E2]].
  - rewrite E. apply rstrip_spaces, H.
  - rewrite E1, E2. reflexivity.
Qed.

(** ** [classify] *)

Lemma qhe_pass_strip (raw : str) :
  Str.contains QHE_PASS (Str.strip raw) = Str.contains QHE_PASS raw.
Proof.
  destruct (Str.contains QHE_PASS raw) eqn:E.
  - apply contains_iff. apply contains_iff in E.
    eapply (@substring_strip QHE_PASS raw); try exact E; reflexivity.
  - apply contains_false_iff. apply contains_false_iff in E.
    intros H. apply E, substring_strip_back, H.
Qed.

Lemma classify_pass (o : option str) (rc : Z) :
  Substring QHE_PASS (captured o) ->
  classify (mk_completed o rc) = (true, None).
Proof.
  intros H. unfold classify. cbn [stdout]. fold (captured o).
  rewrite qhe_pass_strip. apply contains_iff in H. rewrite H. reflexivity.
Qed.

Lemma classify_fail (o : option str) (rc : Z) (pre payload : str) :
  ~ Substring QHE_PASS (captured o) ->
  FirstOcc QHE_FAIL (captured o) pre payload ->
  classify (mk_completed o rc) = (false, Some (Str.strip payload)).
Proof.
  intros Hp Hf. unfold classify. cbn [stdout]. fold (captured o).
  rewrite qhe_pass_strip. apply contains_false_iff in Hp. rewrite Hp.
  rewrite search_fail.
  destruct (strip_split (captured o)) as [l [r [E [Hl Hr]]]].
  rewrite E in Hf.
  change QHE_FAIL with ("_"%char :: lit "__QHE_FAIL___:") in Hf.
  destruct (@first_occ_drop_spaces "_"%char (lit "__QHE_FAIL___:") _ _ _ _
              eq_refl Hl Hf) as [pre' [-> F]].
  change ("_"%char :: lit "__QHE_FAIL___:")
    with (lit "___QHE_FAIL___" ++ [":"%char]) in F.
  destruct (@first_occ_drop_trailing ":"%char (lit "___QHE_FAIL___") _ _ _ _
              eq_refl Hr F) as [post' [-> F']].
  change (lit "___QHE_FAIL___" ++ [":"%char]) with QHE_FAIL in F'.
  rewrite (after_first_occ _ _ _ _ F'). simpl option_map. cbv iota.
  rewrite strip_spaces_right by exact Hr. reflexivity.
Qed.

Lemma classify_neither (o : option str) (rc : Z) :
  ~ Substring QHE_PASS (captured o) ->
  ~ Substring QHE_FAIL (captured o) ->
  classify (mk_completed o rc) = (false, Some (raw_output_error (captured o))).
Proof.
  intros Hp Hf. unfold classify. cbn [stdout]. fold (captured o).
  rewrite qhe_pass_strip. apply contains_false_iff in Hp. rewrite Hp.
  rewrite search_fail, after_none; [reflexivity|].
  intros H. apply Hf, substring_strip_back, H.
Qed.

Lemma raw_output_error_bounded (raw : str) :
  (Z.of_nat (length (raw_output_error raw)) <= 5014)%Z.
Proof.
  unfold raw_output_error. rewrite length_app, Nat2Z.inj_add.
  pose proof (firstn_le_length 5000 (Str.strip raw)) as H.
  apply Nat2Z.inj_le in H.
  change (Z.of_nat (length (lit "RuntimeError: "))) with 14%Z.
  replace (Z.of_nat 5000) with 5000%Z in H by (vm_compute; reflexivity).
  lia.
Qed.

(** ** [run_in_subprocess] *)

Lemma str_eqb_refl (s : str) : Str.eqb s s = true.
Proof. unfold Str.eqb. destruct (list_eq_dec ascii_dec s s); congruence. Qed.

Lemma str_eqb_eq (a b : str) : Str.eqb a b = true <-> a = b.
Proof.
  unfold Str.eqb. destruct (list_eq_dec ascii_dec a b); split; congruence.
Qed.

Lemma run_in_subprocess_exits
      (sys_executable : str) (mkdtemp : nat -> str)
      (child : nat -> Launch -> option str -> child_behaviour)
      (code : str) (timeout_sec : Z) (w : World)
      (out : option str) (rc : Z) (d : Q) :
  child (spawned w) (launched sys_executable mkdtemp timeout_sec w) (Some code)
  = Exits out rc d ->
  Qle_bool d (inject_Z timeout_sec) = true ->
  fst (run_in_subprocess sys_executable mkdtemp child code timeout_sec w)
  = Ok (classify (mk_completed out rc)).
Proof.
  unfold launched, src_of, run_in_subprocess, with_tempdir,
    finally, bind, try_with, write_text, subprocess_run, launch_of.
  cbn. rewrite str_eqb_refl. intros -> Hd. cbn. rewrite Hd. reflexivity.
Qed.

Lemma run_in_subprocess_overrun
      (sys_executable : str) (mkdtemp : nat -> str)
      (child : nat -> Launch -> option str -> child_behaviour)
      (code : str) (timeout_sec : Z) (w : World) :
  Overruns
    (child (spawned w) (launched sys_executable mkdtemp timeout_sec w) (Some code))
    timeout_sec ->
  let r := run_in_subprocess sys_executable mkdtemp child code timeout_sec w in
  fst r = Ok (false, Some (timeout_message timeout_sec))
  /\ live (snd r) = remove Nat.eq_dec (spawned w) (live w).
Proof.
  unfold launched, src_of, run_in_subprocess, with_tempdir,
    finally, bind, try_with, write_text, subprocess_run, launch_of, Overruns.
  cbn. rewrite str_eqb_refl.
  destruct (child _ _ _) as [out rc d| |e]; cbn.
  - intros ->. cbn. destruct (Nat.eq_dec (spawned w) (spawned w)); [|congruence].
    split; reflexivity.
  - intros _. destruct (Nat.eq_dec (spawned w) (spawned w)); [|congruence].
    split; reflexivity.
  - intros [].
Qed.

(** C2, as stated, fails.  A child that prints [boom] and neither sentinel is
    recorded with the error [RuntimeError: boom], which is not a prefix of
    what was captured. *)
Lemma fallback_error_is_not_an_output_prefix :
  Str.contains QHE_PASS (lit "boom") = false
  /\ Str.contains QHE_FAIL (lit "boom") = false
  /\ fst (run_in_subprocess Fixture.python Fixture.mkdtemp
            (Fixture.prints (lit "boom") 1) (lit "pass") 45 Fixture.w0)
     = Ok (false, Some (lit "RuntimeError: boom"))
  /\ ~ FallbackIsOutputPrefix (Some (lit "boom")) 1.
Proof.
  split; [reflexivity|]. split; [reflexivity|]. split; [vm_compute; reflexivity|].
  intros [e [H1 H2]]. vm_compute in H1. injection H1 as <-.
  vm_compute in H2. discriminate.
Qed.

(** C2, amended.  When the child ends within the timeout, [run_in_subprocess]
    classifies what was captured in this order: the success sentinel anywhere
    gives passed with no error; otherwise the failure sentinel gives not
    passed with, as error, the text after its first occurrence, stripped;
    otherwise not passed with, as error, the label [RuntimeError: ] followed
    by the first 5000 characters of the stripped output, at most 5014
    characters in all. *)
Theorem run_in_subprocess_classification
        (sys_executable : str) (mkdtemp : nat -> str)
        (child : nat -> Launch -> option str -> child_behaviour)
        (code : str) (timeout_sec : Z) (w : World)
        (out : option str) (rc : Z) (d : Q) :
  child (spawned w) (launched sys_executable mkdtemp timeout_sec w) (Some code)
  = Exits out rc d ->
  Qle_bool d (inject_Z timeout_sec) = true ->
  let r := fst (run_in_subprocess sys_executable mkdtemp child code
                                  timeout_sec w) in
  (Substring QHE_PASS (captured out) -> r = Ok (true, None))
  /\ (~ Substring QHE_PASS (captured out) ->
      forall pre payload,
        FirstOcc QHE_FAIL (captured out) pre payload ->
        r = Ok (false, Some (Str.strip payload)))
  /\ (~ Substring QHE_PASS (captured out) ->
      ~ Substring QHE_FAIL (captured out) ->
      r = Ok (false, Some (raw_output_error (captured out)))
      /\ (Z.of_nat (length (raw_output_error (captured out))) <= 5014)%Z).
Proof.
  intros Hc Hd r. subst r.
  rewrite (@run_in_subprocess_exits _ _ _ _ _ _ _ _ _ Hc Hd).
  split; [|split].
  - intros H. rewrite (@classify_pass out rc H). reflexivity.
  - intros Hp pre payload Hf. rewrite (@classify_fail out rc pre payload Hp Hf). reflexivity.
  - intros Hp Hf. rewrite (@classify_neither out rc Hp Hf).
    split; [reflexivity | apply raw_output_error_bounded].
Qed.

Lemma run_in_subprocess_classification_witness :
  fst (run_in_subprocess Fixture.python Fixture.mkdtemp
         (Fixture.prints Fixture.failing_output 0) (lit "pass") 45 Fixture.w0)
  = Ok (false, Some (lit "ValueError('x')")).
Proof.
  destruct (@run_in_subprocess_classification
              Fixture.python Fixture.mkdtemp
              (Fixture.prints Fixture.failing_output 0) (lit "pass") 45
              Fixture.w0 (Some Fixture.failing_output) 0 1%Q
              eq_refl eq_refl) as [_ [Hfail _]].
  apply (Hfail
           ltac:(apply contains_false_iff; vm_compute; reflexivity)
           (lit "warming up" ++ [nl]) (lit "ValueError('x')" ++ [nl])).
  apply first_occ_cons; [reflexivity|].
  repeat (apply first_occ_cons; [reflexivity|]).
  apply first_occ_at_start. reflexivity.
Defined.

(** C3. When the child is still running when the timeout expires, whether it
    would have ended later or never, [run_in_subprocess] returns not passed
    with the error [Timeout(Ns)], N the timeout in decimal; the child it
    started is no longer among the live processes, and no other process was
    left behind.  The killing is [subprocess.run]'s, which the script calls
    with [timeout=]. *)
Theorem timeout_reported_and_child_terminated
        (sys_executable : str) (mkdtemp : nat -> str)
        (child : nat -> Launch -> option str -> child_behaviour)
        (code : str) (timeout_sec : Z) (w : World) :
  Overruns
    (child (spawned w) (launched sys_executable mkdtemp timeout_sec w) (Some code))
    timeout_sec ->
  let r := run_in_subprocess sys_executable mkdtemp child code timeout_sec w in
  fst r = Ok (false,
              Some (lit "Timeout(" ++ Str.of_int timeout_sec ++ lit "s)"))
  /\ ~ In (spawned w) (live (snd r))
  /\ (forall pid, In pid (live (snd r)) -> In pid (live w)).
Proof.
  intros H r.
  destruct (@run_in_subprocess_overrun sys_executable mkdtemp child code
              timeout_sec w H) as [Hr Hl].
  fold r in Hr, Hl. split; [exact Hr|]. rewrite Hl. split.
  - apply remove_In.
  - intros pid Hp. apply in_remove in Hp. tauto.
Qed.

Lemma timeout_reported_and_child_terminated_witness :
  fst (run_in_subprocess Fixture.python Fixture.mkdtemp Fixture.hangs
                         (lit "while True: pass") 2 Fixture.w0)
  = Ok (false, Some (lit "Timeout(2s)"))
  /\ live (snd (run_in_subprocess Fixture.python Fixture.mkdtemp Fixture.hangs
                                  (lit "while True: pass") 2 Fixture.w0)) = [].
Proof.
  destruct (@timeout_reported_and_child_terminated
              Fixture.python Fixture.mkdtemp Fixture.hangs
              (lit "while True: pass") 2 Fixture.w0 I) as [Hr [_ Hl]].
  split; [exact Hr|].
  destruct (live (snd (run_in_subprocess Fixture.python Fixture.mkdtemp
                         Fixture.hangs (lit "while True: pass") 2 Fixture.w0)))
    as [|pid l]; [reflexivity|].
  destruct (Hl pid (or_introl eq_refl)).
Defined.

Example timeout_message_45 : timeout_message 45 = lit "Timeout(45s)".
Proof. reflexivity. Qed.

Example timeout_message_120 : timeout_message 120 = lit "Timeout(120s)".
Proof. reflexivity. Qed.

(** C10. When the captured output holds both sentinels the result is passed
    with no error, and the exit code plays no part: two children that print
    the same text within the timeout are classified alike whatever their exit
    codes. *)
Theorem pass_sentinel_first_exit_code_ignored
        (sys_executable : str) (mkdtemp : nat -> str)
        (child : nat -> Launch -> option str -> child_behaviour)
        (code : str) (timeout_sec : Z) (w : World)
        (out : option str) (rc : Z) (d : Q) :
  child (spawned w) (launched sys_executable mkdtemp timeout_sec w) (Some code)
  = Exits out rc d ->
  Qle_bool d (inject_Z timeout_sec) = true ->
  (Substring QHE_PASS (captured out) ->
   Substring QHE_FAIL (captured out) ->
   fst (run_in_subprocess sys_executable mkdtemp child code timeout_sec w)
   = Ok (true, None))
  /\ (forall (child' : nat -> Launch -> option str -> child_behaviour)
             (rc' : Z),
        child' (spawned w) (launched sys_executable mkdtemp timeout_sec w)
               (Some code)
        = Exits out rc' d ->
        fst (run_in_subprocess sys_executable mkdtemp child' code timeout_sec w)
        = fst (run_in_subprocess sys_executable mkdtemp child code
                                 timeout_sec w)).
Proof.
  intros Hc Hd. rewrite (@run_in_subprocess_exits _ _ _ _ _ _ _ _ _ Hc Hd).
  split.
  - intros Hp _. rewrite (@classify_pass out rc Hp). reflexivity.
  - intros child' rc' Hc'.
    rewrite (@run_in_subprocess_exits _ _ _ _ _ _ _ _ _ Hc' Hd).
    reflexivity.
Qed.

Lemma pass_sentinel_first_exit_code_ignored_witness :
  fst (run_in_subprocess Fixture.python Fixture.mkdtemp
         (Fixture.prints Fixture.both_output 1) (lit "pass") 45 Fixture.w0)
  = Ok (true, None)
  /\ fst (run_in_subprocess Fixture.python Fixture.mkdtemp
            (Fixture.prints Fixture.both_output 0) (lit "pass") 45 Fixture.w0)
     = fst (run_in_subprocess Fixture.python Fixture.mkdtemp
              (Fixture.prints Fixture.both_output 1) (lit "pass") 45 Fixture.w0).
Proof.
  destruct (@pass_sentinel_first_exit_code_ignored
              Fixture.python Fixture.mkdtemp
              (Fixture.prints Fixture.both_output 1) (lit "pass") 45
              Fixture.w0 (Some Fixture.both_output) 1 1%Q
              eq_refl eq_refl) as [Hboth Hrc].
  split.
  - apply Hboth; apply contains_iff; vm_compute; reflexivity.
  - apply (Hrc (Fixture.prints Fixture.both_output 0) 0%Z). reflexivity.
Defined.

(** ** The code-block pattern *)

Lemma lazy_until_fence (p s : str) :
  lazy_any
    (fun s' =>
       if Str.startswith FENCE s'
       then Some (Some (firstn (length (p ++ s) - length s') (p ++ s)))
       else None) s
  = option_map (fun x => Some (p ++ x)) (until FENCE s).
Proof.
  revert p. induction s as [|c s IH]; intros p.
  - reflexivity.
  - rewrite until_cons.
    change (lazy_any ?k (c :: s)) with (Re.orelse (k (c :: s)) (lazy_any k s)).
    cbv beta.
    destruct (Str.startswith FENCE (c :: s)) eqn:E.
    + simpl Re.orelse. simpl option_map. rewrite app_nil_r.
      rewrite length_app, Nat.add_sub, firstn_app, firstn_all, Nat.sub_diag.
      simpl firstn. rewrite app_nil_r. reflexivity.
    + simpl Re.orelse.
      replace (p ++ c :: s) with ((p ++ [c]) ++ s)
        by (rewrite <- app_assoc; reflexivity).
      rewrite IH. destruct (until FENCE s); simpl; [|reflexivity].
      rewrite <- app_assoc. reflexivity.
Qed.

Lemma until_fence_space (c : ascii) (s : str) :
  Str.is_space c = true ->
  until FENCE (Str.lstrip s) = None -> until FENCE (c :: s) = None.
Proof.
  intros Hc H. apply until_none. apply until_none in H.
  intros S. apply H.
  change FENCE with ("`"%char :: lit "``") in *.
  apply (@substring_lstrip "`"%char (lit "``") (c :: s) eq_refl) in S.
  simpl in S. rewrite Hc in S. exact S.
Qed.

Lemma greedy_space_until_fence (s : str) :
  greedy_space (fun s' => option_map (@Some str) (until FENCE s')) s
  = option_map Some (until FENCE (Str.lstrip s)).
Proof.
  induction s as [|c s IH].
  - reflexivity.
  - change (greedy_space ?k (c :: s)) with
      (Re.orelse (if Str.is_space c then greedy_space k s else None)
                 (k (c :: s))).
    cbv beta. simpl Str.lstrip. destruct (Str.is_space c) eqn:Hc.
    + rewrite IH. destruct (until FENCE (Str.lstrip s)) eqn:U; [reflexivity|].
      rewrite (until_fence_space c s Hc U). reflexivity.
    + reflexivity.
Qed.

Lemma lazy_any_ext {R} (k1 k2 : str -> option R) (s : str) :
  (forall s', k1 s' = k2 s') -> lazy_any k1 s = lazy_any k2 s.
Proof.
  intros H. induction s as [|c s IH]; simpl; rewrite H; [reflexivity|].
  rewrite IH. reflexivity.
Qed.

Lemma greedy_space_ext {R} (k1 k2 : str -> option R) (s : str) :
  (forall s', k1 s' = k2 s') -> greedy_space k1 s = greedy_space k2 s.
Proof.
  intros H. induction s as [|c s IH]; simpl; rewrite H; [reflexivity|].
  rewrite IH. reflexivity.
Qed.

Lemma run_block_body (s : str) (g : option str) :
  Re.run (Re.Seq (Re.Grp (Re.Star false Re.Any)) (Re.Lit FENCE)) s g
         (fun _ g' => Some g')
  = option_map Some (until FENCE s).
Proof.
  cbn [Re.run]. rewrite star_lazy_any by lia.
  transitivity
    (lazy_any
       (fun s' =>
          if Str.startswith FENCE s'
          then Some (Some (firstn (length ([] ++ s) - length s') ([] ++ s)))
          else None) s).
  - apply lazy_any_ext. intros s'. rewrite run_Lit. reflexivity.
  - apply (lazy_until_fence [] s).
Qed.

Lemma run_block_tail (s : str) (g : option str) :
  Re.run (Re.Seq (Re.Star true Re.Space)
            (Re.Seq (Re.Grp (Re.Star false Re.Any)) (Re.Lit FENCE)))
         s g (fun _ g' => Some g')
  = option_map Some (body_after s).
Proof.
  change (Re.run (Re.Seq ?a ?b) s g ?k)
    with (Re.run a s g (fun s' g' => Re.run b s' g' k)).
  change (Re.run (Re.Star true Re.Space) s g ?k)
    with (Re.star_loop (Re.run Re.Space) true k (length s) s g).
  rewrite star_greedy_space by lia.
  unfold body_after. rewrite <- greedy_space_until_fence.
  apply greedy_space_ext. intros s'. apply run_block_body.
Qed.

Lemma match_here_block (s : str) :
  Re.match_here CODE_BLOCK_RE s = option_map Some (block_here s).
Proof.
  unfold Re.match_here, CODE_BLOCK_RE, block_here.
  change (Re.run (Re.Seq ?a ?b) s None ?k)
    with (Re.run a s None (fun s' g' => Re.run b s' g' k)).
  rewrite run_Lit. destruct (Str.startswith FENCE s); [|reflexivity].
  set (s1 := skipn (length FENCE) s).
  change (Re.run (Re.Seq ?a ?b) s1 None ?k)
    with (Re.run a s1 None (fun s' g' => Re.run b s' g' k)).
  unfold Re.Opt.
  change (Re.run (Re.Alt ?a Re.Eps) s1 None ?k)
    with (Re.orelse (Re.run a s1 None k) (k s1 None)).
  rewrite run_Lit. fold LANG. cbv beta. rewrite !run_block_tail.
  destruct (Str.startswith LANG s1); simpl;
    destruct (body_after _); try reflexivity.
Qed.

Lemma search_block (s : str) :
  Re.search CODE_BLOCK_RE s = option_map Some (find_block s).
Proof.
  induction s as [|c s IH].
  - reflexivity.
  - change (Re.search CODE_BLOCK_RE (c :: s)) with
      (match Re.match_here CODE_BLOCK_RE (c :: s) with
       | Some g => Some g
       | None => Re.search CODE_BLOCK_RE s
       end).
    change (find_block (c :: s)) with
      (match block_here (c :: s) with
       | Some g => Some g
       | None => find_block s
       end).
    rewrite match_here_block.
    destruct (block_here (c :: s)); [reflexivity | exact IH].
Qed.

Lemma extract_code_only_eq (text : str) :
  extract_code_only text
  = match find_block text with
    | Some g => Str.strip g
    | None => Str.strip text
    end.
Proof.
  unfold extract_code_only. rewrite search_block.
  destruct (find_block text); reflexivity.
Qed.

Lemma skipn_prefix (p r : str) : skipn (length p) (p ++ r) = r.
Proof. rewrite skipn_app, skipn_all, Nat.sub_diag. reflexivity. Qed.

Lemma body_after_first (interior post : str) :
  FirstOcc FENCE (interior ++ FENCE ++ post) interior post ->
  body_after (interior ++ FENCE ++ post) = Some (Str.lstrip interior).
Proof.
  intros H. unfold body_after.
  change (FENCE ++ post) with ("`"%char :: (lit "``" ++ post)).
  rewrite (@lstrip_app_stop interior "`"%char (lit "``" ++ post) eq_refl).
  change ("`"%char :: (lit "``" ++ post)) with (FENCE ++ post).
  destruct (lstrip_split interior) as [ws [E Hws]].
  remember (Str.lstrip interior) as li eqn:Eli. clear Eli. subst interior.
  rewrite <- app_assoc in H.
  change FENCE with ("`"%char :: lit "``") in H.
  destruct (@first_occ_drop_spaces "`"%char (lit "``") ws
              (li ++ ("`"%char :: lit "``") ++ post) (ws ++ li) post
              eq_refl Hws H) as [pre' [E F]].
  apply app_inv_head in E. subst pre'.
  apply (@until_first_occ _ _ _ _ F).
Qed.

Lemma block_here_first (tag interior post : str) :
  tag = LANG
  \/ (tag = [] /\ Str.startswith LANG (interior ++ FENCE ++ post) = false) ->
  FirstOcc FENCE (interior ++ FENCE ++ post) interior post ->
  block_here (FENCE ++ tag ++ interior ++ FENCE ++ post)
  = Some (Str.lstrip interior).
Proof.
  intros Ht H. unfold block_here.
  rewrite startswith_app, skipn_prefix. cbv zeta.
  destruct Ht as [-> | [-> Hn]].
  - rewrite startswith_app, skipn_prefix.
    rewrite (body_after_first interior post H). reflexivity.
  - change ([] ++ interior ++ FENCE ++ post) with (interior ++ FENCE ++ post).
    rewrite Hn, (body_after_first interior post H). reflexivity.
Qed.

Lemma find_block_nil :
  find_block [] = match block_here [] with Some g => Some g | None => None end.
Proof. reflexivity. Qed.

Lemma find_block_cons (c : ascii) (s : str) :
  find_block (c :: s)
  = match block_here (c :: s) with
    | Some g => Some g
    | None => find_block s
    end.
Proof. reflexivity. Qed.

Lemma find_block_here (s g : str) :
  block_here s = Some g -> find_block s = Some g.
Proof.
  intros H. destruct s; [rewrite find_block_nil | rewrite find_block_cons];
    rewrite H; reflexivity.
Qed.

Lemma find_block_first (text pre tag interior post : str) :
  FirstFencedBlock text pre tag interior post ->
  find_block text = Some (Str.lstrip interior).
Proof.
  intros [H [Ht Hi]]. revert text H. induction pre as [|c pre IH]; intros text H.
  - destruct H as [-> _]. simpl app.
    apply find_block_here, (block_here_first tag interior post Ht Hi).
  - assert (Hn := @first_occ_start _ _ _ _ H ltac:(discriminate)).
    destruct text as [|c' text]; [destruct H as [E _]; discriminate|].
    assert (c' = c) as -> by (destruct H as [E _]; injection E; auto).
    rewrite find_block_cons. unfold block_here at 1. rewrite Hn.
    apply IH, (@first_occ_tail _ _ _ _ _ H).
Qed.

Lemma body_after_some (s g : str) :
  body_after s = Some g -> exists ws post, s = ws ++ g ++ FENCE ++ post.
Proof.
  unfold body_after. intros H.
  destruct (until_some _ _ _ H) as [post [E _]].
  destruct (lstrip_split s) as [ws [Es _]].
  exists ws, post. rewrite Es at 1. rewrite E. reflexivity.
Qed.

Lemma block_here_some (s g : str) :
  block_here s = Some g -> exists b c, s = FENCE ++ b ++ FENCE ++ c.
Proof.
  unfold block_here. destruct (Str.startswith FENCE s) eqn:E; [|discriminate].
  apply startswith_skipn in E. cbv zeta.
  set (s1 := skipn (length FENCE) s) in *.
  destruct (Str.startswith LANG s1) eqn:L.
  - apply startswith_skipn in L.
    destruct (body_after (skipn (length LANG) s1)) as [g'|] eqn:B.
    + intros _. destruct (body_after_some _ _ B) as [ws [post Es]].
      exists (LANG ++ ws ++ g'), post. rewrite E at 1. f_equal.
      rewrite L at 1. rewrite Es, <- !app_assoc. reflexivity.
    + simpl. intros B'. destruct (body_after_some _ _ B') as [ws [post Es]].
      exists (ws ++ g), post. rewrite E at 1. f_equal.
      rewrite Es, <- !app_assoc. reflexivity.
  - simpl. intros B'. destruct (body_after_some _ _ B') as [ws [post Es]].
    exists (ws ++ g), post. rewrite E at 1. f_equal.
    rewrite Es, <- !app_assoc. reflexivity.
Qed.

Lemma find_block_some (s g : str) :
  find_block s = Some g -> HasFencedBlock s.
Proof.
  induction s as [|c s IH].
  - rewrite find_block_nil. destruct (block_here []) eqn:B; [|discriminate].
    intros _. destruct (block_here_some _ _ B) as [b [c E]].
    exists [], b, c. exact E.
  - rewrite find_block_cons.
    destruct (block_here (c :: s)) eqn:B.
    + intros _. destruct (block_here_some _ _ B) as [b [c' E]].
      exists [], b, c'. exact E.
    + intros H. destruct (IH H) as [a [b [c' E]]].
      exists (c :: a), b, c'. rewrite E. reflexivity.
Qed.

Lemma substring_skip_other (c a : ascii) (n h : str) :
  a <> c -> Substring (c :: n) (a :: h) -> Substring (c :: n) h.
Proof.
  intros Hne [[|a0 p] [q H]].
  - injection H as -> _. congruence.
  - injection H as _ H. exists p, q. exact H.
Qed.

Lemma fence_after_lang (s : str) :
  Substring FENCE (LANG ++ s) -> Substring FENCE s.
Proof.
  intros H. change FENCE with ("`"%char :: lit "``") in *.
  repeat (apply substring_skip_other in H; [|discriminate]). exact H.
Qed.

Lemma fence_in_rest (text pre rest a b c : str) :
  FirstOcc FENCE text pre rest ->
  text = a ++ FENCE ++ b ++ FENCE ++ c ->
  Substring FENCE rest.
Proof.
  intros [Ep M] E. specialize (M a (b ++ FENCE ++ c) E).
  assert (Hr : rest = skipn (length (pre ++ FENCE)) text).
  { rewrite Ep, app_assoc, skipn_prefix. reflexivity. }
  rewrite E in Hr.
  replace (a ++ FENCE ++ b ++ FENCE ++ c)
    with ((a ++ FENCE ++ b) ++ FENCE ++ c) in Hr
    by (rewrite <- !app_assoc; reflexivity).
  rewrite skipn_app in Hr.
  replace (length (pre ++ FENCE) - length (a ++ FENCE ++ b)) with 0 in Hr
    by (rewrite !length_app; lia).
  exists (skipn (length (pre ++ FENCE)) (a ++ FENCE ++ b)), c. exact Hr.
Qed.

Lemma first_block_exists (text : str) :
  HasFencedBlock text ->
  exists pre tag interior post, FirstFencedBlock text pre tag interior post.
Proof.
  intros [a [b [c E]]].
  assert (S : Substring FENCE text) by (exists a, (b ++ FENCE ++ c); exact E).
  destruct (first_occ_exists _ _ S) as [pre [rest F]].
  pose proof (fence_in_rest text pre rest a b c F E) as Hr.
  destruct (Str.startswith LANG rest) eqn:L.
  - apply startswith_iff in L. destruct L as [rest' ->].
    apply fence_after_lang in Hr.
    destruct (first_occ_exists _ _ Hr) as [interior [post Fi]].
    assert (Er : rest' = interior ++ FENCE ++ post) by (destruct Fi; assumption).
    subst rest'. exists pre, LANG, interior, post.
    split; [exact F|]. split; [left; reflexivity | exact Fi].
  - destruct (first_occ_exists _ _ Hr) as [interior [post Fi]].
    assert (Er : rest = interior ++ FENCE ++ post) by (destruct Fi; assumption).
    subst rest. exists pre, [], interior, post.
    split; [exact F|]. split; [right; split; [reflexivity | exact L] | exact Fi].
Qed.

(** C7. When the response holds a fenced code block, [extract_code_only]
    returns the interior of the first one, stripped: what lies between the
    leftmost fence, with the language tag [python] when it follows directly,
    and the next fence.  When it holds none, it returns the whole response,
    stripped.  The two cases cover every response. *)
Theorem extract_code_only_fenced_or_trimmed (text : str) :
  (forall pre tag interior post,
      FirstFencedBlock text pre tag interior post ->
      extract_code_only text = Str.strip interior)
  /\ (HasFencedBlock text ->
      exists pre tag interior post, FirstFencedBlock text pre tag interior post)
  /\ (~ HasFencedBlock text -> extract_code_only text = Str.strip text).
Proof.
  split; [|split].
  - intros pre tag interior post H.
    rewrite extract_code_only_eq, (find_block_first _ _ _ _ _ H).
    apply strip_lstrip.
  - apply first_block_exists.
  - intros H. rewrite extract_code_only_eq.
    destruct (find_block text) as [g|] eqn:Fb; [|reflexivity].
    exfalso. apply H. exact (find_block_some _ _ Fb).
Qed.

(** ** [load_tasks] *)








(** A dataset without a [task_id] column: the index stands in. *)
Example load_tasks_first_two :
  load_tasks DataFixture.load_dataset (lit "Qiskit/qiskit_humaneval")
             (lit "test") (Some 2%Z)
  = Ok [Task.mk 0 (Some (lit "qiskitHumanEval/0")) (Some (lit "add"))
                (Some (lit "def add(a, b):"))
                (Some (lit "def check(c): pass")) (Some (lit "basic"));
        Task.mk 1 (Some (lit "1")) (Some (lit "div"))
                (Some (lit "def div(a, b):"))
                (Some (lit "def check(c): pass")) None].
Proof. vm_compute. reflexivity. Qed.

(** ** Summary and persistence *)

Lemma summary_path_not_csv_path (out_root : str) :
  Str.eqb (summary_path out_root) (csv_path_of out_root) = false.
Proof.
  destruct (Str.eqb (summary_path out_root) (csv_path_of out_root)) eqn:E;
    [|reflexivity].
  apply str_eqb_eq in E. unfold summary_path, csv_path_of, path_join in E.
  apply app_inv_head in E. discriminate.
Qed.

(** C4: the code against the claim.  With no recorded result the step after
    the loop raises [IndexError] at [results[0]], after it has created an
    empty [results.csv] and before it writes [summary.json]: no summary with
    total 0, passed 0 and pass_at_1 0.0 is produced. *)
Theorem summary_step_raises_on_no_results
        (csv_dumps : list str -> list Result.t -> str)
        (json_dumps : Summary.t -> str)
        (args : Args.t) (run_ts out_root : str) (w : World) :
  fst (summarize_and_persist csv_dumps json_dumps args run_ts out_root [] w)
  = Raise index_error
  /\ SummaryUntouched out_root w
       (snd (summarize_and_persist csv_dumps json_dumps args run_ts out_root
                                   [] w))
  /\ fs_lookup (csv_path_of out_root)
       (files (snd (summarize_and_persist csv_dumps json_dumps args run_ts
                                          out_root [] w)))
     = Some [].
Proof.
  unfold summarize_and_persist, SummaryUntouched, bind, write_text, raise.
  cbn. rewrite summary_path_not_csv_path, str_eqb_refl.
  repeat split; reflexivity.
Qed.

(** The same on a whole run: [--max-items 0] ends in [IndexError]. *)
Example evaluate_no_items_raises :
  fst (evaluate RunFixture.run_ts Fixture.python Fixture.mkdtemp
                DataFixture.load_dataset RunFixture.api_down Fixture.hangs
                RunFixture.csv_dumps RunFixture.json_dumps
                RunFixture.args_no_items Fixture.w0)
  = Raise index_error.
Proof. vm_compute. reflexivity. Qed.

(** The ratio itself is guarded against an empty run. *)
Example pass_ratio_empty : pass_ratio 0 0 = 0%float.
Proof. reflexivity. Qed.

Example pass_ratio_third :
  pass_ratio 1 3 = PrimFloat.div 1%float 3%float.
Proof. vm_compute. reflexivity. Qed.

(** ** Sorting difficulty labels *)

Lemma insert_label_none (y : option str) (rest : list (option str)) :
  insert_label None (y :: rest) = Raise type_error.
Proof. reflexivity. Qed.

Lemma insert_label_into_none (x : option str) (rest : list (option str)) :
  insert_label x (None :: rest) = Raise type_error.
Proof. destruct x; reflexivity. Qed.

Lemma insert_label_some (s : str) (acc : list (option str)) :
  Forall IsLabel acc ->
  exists acc',
    insert_label (Some s) acc = Ok acc'
    /\ acc' <> [] /\ Forall IsLabel acc'
    /\ (forall x, In x acc' <-> x = Some s \/ In x acc).
Proof.
  induction 1 as [|y acc Hy Hacc IH].
  - exists [Some s]. split; [reflexivity|]. split; [discriminate|]. split.
    + constructor; [discriminate | constructor].
    + intros x. simpl. intuition congruence.
  - destruct y as [y|]; [|exfalso; apply Hy; reflexivity].
    simpl. destruct (Str.ltb s y).
    + eexists. split; [reflexivity|]. split; [discriminate|]. split.
      * constructor; [discriminate|]. constructor; assumption.
      * intros x. simpl. intuition congruence.
    + destruct IH as [acc' [E [_ [F I]]]]. rewrite E. simpl.
      eexists. split; [reflexivity|]. split; [discriminate|]. split.
      * constructor; assumption.
      * intros x. simpl. rewrite I. tauto.
Qed.

Lemma sort_into_labels_then_none (l acc : list (option str)) :
  acc <> [] -> Forall IsLabel acc -> In None l ->
  sort_into acc l = Raise type_error.
Proof.
  revert acc. induction l as [|x l IH]; intros acc Hne Hacc Hin;
    [destruct Hin|].
  simpl. destruct x as [s|].
  - destruct (insert_label_some s acc Hacc) as [acc' [E [Hne' [Hacc' _]]]].
    rewrite E. simpl. apply IH; try assumption.
    destruct Hin as [Hx | Hin]; [discriminate | exact Hin].
  - destruct acc as [|y acc]; [congruence|].
    rewrite insert_label_none. reflexivity.
Qed.

Lemma sort_into_none_then_any (l : list (option str)) :
  l <> [] -> sort_into [None] l = Raise type_error.
Proof.
  destruct l as [|x l]; [congruence|]. intros _.
  change (sort_into [None] (x :: l))
    with (res_bind (insert_label x [None]) (fun acc' => sort_into acc' l)).
  rewrite insert_label_into_none. reflexivity.
Qed.

(** Sorting raises as soon as [None] and a label are both present. *)
Lemma py_sorted_mixed (l : list (option str)) (s : str) :
  In None l -> In (Some s) l -> py_sorted l = Raise type_error.
Proof.
  unfold py_sorted. destruct l as [|x l]; [intros []|].
  intros Hn Hs. simpl. destruct x as [x|].
  - apply sort_into_labels_then_none.
    + discriminate.
    + constructor; [discriminate | constructor].
    + destruct Hn as [Hn | Hn]; [discriminate | exact Hn].
  - apply sort_into_none_then_any.
    destruct Hs as [Hs | Hs]; [discriminate|]. intros ->. destruct Hs.
Qed.

Lemma by_difficulty_mixed (results : list Result.t) (r1 r2 : Result.t) (s : str) :
  In r1 results -> Result.difficulty_scale r1 = None ->
  In r2 results -> Result.difficulty_scale r2 = Some s ->
  by_difficulty results = Raise type_error.
Proof.
  intros H1 E1 H2 E2. unfold by_difficulty.
  rewrite (@py_sorted_mixed (label_set results) s); [reflexivity| |].
  - unfold label_set. apply nodup_In. rewrite <- E1. apply in_map, H1.
  - unfold label_set. apply nodup_In. rewrite <- E2. apply in_map, H2.
Qed.

(** C5: the code against the claim.  When one recorded result has no
    difficulty label and another has one, computing [by_difficulty] raises
    [TypeError] inside [sorted]: the step after the loop ends there, with
    [results.csv] written and [summary.json] not. *)
Theorem summary_step_raises_on_mixed_labels
        (csv_dumps : list str -> list Result.t -> str)
        (json_dumps : Summary.t -> str)
        (args : Args.t) (run_ts out_root : str) (w : World)
        (results : list Result.t) (r1 r2 : Result.t) (s : str) :
  In r1 results -> Result.difficulty_scale r1 = None ->
  In r2 results -> Result.difficulty_scale r2 = Some s ->
  fst (summarize_and_persist csv_dumps json_dumps args run_ts out_root
                             results w)
  = Raise type_error
  /\ SummaryUntouched out_root w
       (snd (summarize_and_persist csv_dumps json_dumps args run_ts out_root
                                   results w)).
Proof.
  intros H1 E1 H2 E2.
  unfold summarize_and_persist, SummaryUntouched, bind, write_text, raise,
    lift, ret.
  rewrite (by_difficulty_mixed results r1 r2 s H1 E1 H2 E2).
  destruct results as [|r0 results]; [destruct H1|].
  cbn. rewrite summary_path_not_csv_path. split; reflexivity.
Qed.

Lemma summary_step_raises_on_mixed_labels_witness :
  fst (summarize_and_persist RunFixture.csv_dumps RunFixture.json_dumps
         RunFixture.args RunFixture.run_ts RunFixture.out_root
         RunFixture.mixed Fixture.w0)
  = Raise type_error
  /\ SummaryUntouched RunFixture.out_root Fixture.w0
       (snd (summarize_and_persist RunFixture.csv_dumps RunFixture.json_dumps
               RunFixture.args RunFixture.run_ts RunFixture.out_root
               RunFixture.mixed Fixture.w0)).
Proof.
  apply (@summary_step_raises_on_mixed_labels
           RunFixture.csv_dumps RunFixture.json_dumps RunFixture.args
           RunFixture.run_ts RunFixture.out_root Fixture.w0 RunFixture.mixed
           (RunFixture.result (lit "0") true None)
           (RunFixture.result (lit "1") false (Some (lit "basic")))
           (lit "basic")).
  - left. reflexivity.
  - reflexivity.
  - right. left. reflexivity.
  - reflexivity.
Defined.

(** With labels only, the mapping is there: one key per distinct label, in
    alphabetical order, with its counts. *)
Example by_difficulty_labelled :
  by_difficulty RunFixture.labelled
  = Ok [(Some (lit "basic"), Summary.mk_bucket 1 2);
        (Some (lit "intermediate"), Summary.mk_bucket 1 1)].
Proof. vm_compute. reflexivity. Qed.

(** With no label at all, the one key is [None]. *)
Example by_difficulty_unlabelled :
  by_difficulty [RunFixture.result (lit "0") true None;
                 RunFixture.result (lit "1") false None]
  = Ok [(None, Summary.mk_bucket 1 2)].
Proof. vm_compute. reflexivity. Qed.

(** ** The child's command line and environment *)

(** [run_in_subprocess] consults the child oracle once, with the launch
    [launched] describes and the script it has just written. *)
Lemma run_in_subprocess_launch
      (sys_executable : str) (mkdtemp : nat -> str)
      (child : nat -> Launch -> option str -> child_behaviour)
      (code : str) (timeout_sec : Z) (w : World) :
  run_in_subprocess sys_executable mkdtemp child code timeout_sec w
  = run_in_subprocess sys_executable mkdtemp
      (fun _ _ _ =>
         child (spawned w) (launched sys_executable mkdtemp timeout_sec w)
               (Some code))
      code timeout_sec w.
Proof.
  unfold launched, src_of, run_in_subprocess, with_tempdir,
    finally, bind, try_with, write_text, subprocess_run, launch_of.
  cbn. rewrite str_eqb_refl. reflexivity.
Qed.

(** C9, as stated, fails.  In a world where the driver can start, its API key
    being set, the launch handed to [subprocess.run] carries that key, and a
    child that prints the key it finds gets it recorded in the error. *)
Lemma child_environment_holds_api_key :
  fst (new_client Fixture.w0) = Ok tt
  /\ Format.lookup (lit "OPENAI_API_KEY")
       (env (launch_of Fixture.python
                       (path_join (Fixture.mkdtemp 0) (lit "eval_task.py"))
                       45 Fixture.w0))
     = Some (lit "sk-test")
  /\ (ChildEnvWithholdsApiKey Fixture.python
        (path_join (Fixture.mkdtemp 0) (lit "eval_task.py")) 45 Fixture.w0
      -> False)
  /\ fst (run_in_subprocess Fixture.python Fixture.mkdtemp prints_api_key
                            (lit "import os") 45 Fixture.w0)
     = Ok (false, Some (lit "RuntimeError: sk-test")).
Proof.
  split; [reflexivity|]. split; [reflexivity|]. split.
  - unfold ChildEnvWithholdsApiKey. vm_compute. discriminate.
  - vm_compute. reflexivity.
Qed.

(** C9, amended.  The child is started as [sys.executable -I -B script], the
    flags that keep the user site directory out and write no bytecode files,
    and with a copy of the whole environment of the parent: every variable
    of the parent, the model API key among them, is in the child's
    environment with the same value. *)
Theorem child_launch_flags_and_full_environment
        (sys_executable : str) (mkdtemp : nat -> str)
        (child : nat -> Launch -> option str -> child_behaviour)
        (code : str) (timeout_sec : Z) (w : World) :
  run_in_subprocess sys_executable mkdtemp child code timeout_sec w
  = run_in_subprocess sys_executable mkdtemp
      (fun _ _ _ =>
         child (spawned w) (launched sys_executable mkdtemp timeout_sec w)
               (Some code))
      code timeout_sec w
  /\ argv (launched sys_executable mkdtemp timeout_sec w)
     = [sys_executable; lit "-I"; lit "-B"; src_of mkdtemp w]
  /\ env (launched sys_executable mkdtemp timeout_sec w) = environ w
  /\ launched sys_executable mkdtemp timeout_sec w
     = launch_of sys_executable (src_of mkdtemp w) timeout_sec w
  /\ forall k,
       Format.lookup k (env (launched sys_executable mkdtemp timeout_sec w))
       = Format.lookup k (environ w).
Proof.
  split; [apply run_in_subprocess_launch|].
  repeat split; reflexivity.
Qed.

(** ** Failures of the model API *)

Lemma api_failure_caught (e : exn) :
  ApiFailure e ->
  caught_by e [APIStatusError; APIConnectionError; APIError] = true.
Proof.
  unfold ApiFailure, caught_by. intros H. simpl. rewrite H.
  rewrite !orb_true_r. reflexivity.
Qed.

(** Every class the clause names is an [APIError]. *)
Lemma caught_is_api_failure (e : exn) :
  caught_by e [APIStatusError; APIConnectionError; APIError] = true ->
  ApiFailure e.
Proof.
  unfold ApiFailure, caught_by, isinstance. destruct (exn_cls e);
    vm_compute; congruence.
Qed.

Lemma call_openai_api_failure
      (responses_create : nat -> Request -> res Response)
      (args : Args.t) (prompt : str) (w : World) (e : exn) :
  responses_create (api_calls w) (request_of args prompt) = Raise e ->
  ApiFailure e ->
  call_openai responses_create (Args.model args) (Some prompt)
              (Args.temperature args) (Args.top_p args)
              (Args.max_output_tokens args) (Args.seed args) w
  = (Raise (mk_exn RuntimeError (lit "OpenAI API error: " ++ exn_str e)
                   (lit "RuntimeError(...)")),
     bump_api w).
Proof.
  intros Hr He.
  unfold call_openai, bind, lift, py_add, try_with, client_responses_create,
    raise.
  fold (request_of args prompt). rewrite Hr, (api_failure_caught e He).
  reflexivity.
Qed.

Lemma not_api_failure_not_caught (e : exn) :
  isinstance e APIError = false ->
  caught_by e [APIStatusError; APIConnectionError; APIError] = false.
Proof.
  intros H.
  destruct (caught_by e [APIStatusError; APIConnectionError; APIError]) eqn:C;
    [|reflexivity].
  apply caught_is_api_failure in C. unfold ApiFailure in C. congruence.
Qed.

Lemma call_openai_other_failure
      (responses_create : nat -> Request -> res Response)
      (args : Args.t) (prompt : str) (w : World) (e : exn) :
  responses_create (api_calls w) (request_of args prompt) = Raise e ->
  isinstance e APIError = false ->
  call_openai responses_create (Args.model args) (Some prompt)
              (Args.temperature args) (Args.top_p args)
              (Args.max_output_tokens args) (Args.seed args) w
  = (Raise e, bump_api w).
Proof.
  intros Hr He.
  unfold call_openai, bind, lift, py_add, try_with, client_responses_create,
    raise.
  fold (request_of args prompt). rewrite Hr, (not_api_failure_not_caught e He).
  reflexivity.
Qed.

Lemma not_reused_not_cached (args : Args.t) (gen_path : str) (w : World) :
  NotReused args gen_path w ->
  (if Args.dry_run args then path_exists gen_path else ret false) w
  = (Ok false, w).
Proof.
  intros [Hn | Hn].
  - rewrite Hn. reflexivity.
  - destruct (Args.dry_run args); [|reflexivity].
    unfold path_exists. rewrite Hn. reflexivity.
Qed.

Lemma get_completion_api_failure
      (responses_create : nat -> Request -> res Response)
      (args : Args.t) (gen_path : str) (t : Task.t) (prompt : str)
      (w : World) (e : exn) :
  Task.prompt t = Some prompt ->
  NotReused args gen_path w ->
  responses_create (api_calls w) (request_of args prompt) = Raise e ->
  ApiFailure e ->
  get_completion responses_create args gen_path t w
  = (Ok ([], None), after_failed_call gen_path w).
Proof.
  intros Hp Hn Hr He. unfold get_completion.
  unfold bind at 1. rewrite (not_reused_not_cached args gen_path w Hn).
  unfold bind at 1. unfold try_with. rewrite Hp.
  rewrite (call_openai_api_failure responses_create args prompt w e Hr He).
  reflexivity.
Qed.

(** An exception of the client that the two [except] clauses do not name
    leaves [get_completion] as it came, before anything is saved. *)
Lemma get_completion_other_failure
      (responses_create : nat -> Request -> res Response)
      (args : Args.t) (gen_path : str) (t : Task.t) (prompt : str)
      (w : World) (e : exn) :
  Task.prompt t = Some prompt ->
  NotReused args gen_path w ->
  responses_create (api_calls w) (request_of args prompt) = Raise e ->
  isinstance e APIError = false ->
  isinstance e RuntimeError = false ->
  get_completion responses_create args gen_path t w = (Raise e, bump_api w).
Proof.
  intros Hp Hn Hr He Hrt. unfold get_completion.
  unfold bind at 1. rewrite (not_reused_not_cached args gen_path w Hn).
  unfold bind at 1. unfold try_with. rewrite Hp.
  rewrite (call_openai_other_failure responses_create args prompt w e Hr He).
  rewrite Hrt. reflexivity.
Qed.

Local Arguments isinstance : simpl never.

Lemma run_in_subprocess_total
      (sys_executable : str) (mkdtemp : nat -> str)
      (child : nat -> Launch -> option str -> child_behaviour)
      (code : str) (timeout_sec : Z) (w : World) :
  LaunchRaisesExceptions child ->
  exists outcome w',
    run_in_subprocess sys_executable mkdtemp child code timeout_sec w
    = (Ok outcome, w').
Proof.
  intros Hch.
  rewrite run_in_subprocess_launch.
  destruct (child (spawned w) (launched sys_executable mkdtemp timeout_sec w)
                  (Some code)) as [out rc d| |e] eqn:Hb.
  - unfold run_in_subprocess, with_tempdir, finally, bind, try_with,
      write_text, subprocess_run, launch_of. cbn.
    destruct (Qle_bool d (inject_Z timeout_sec)); cbn.
    + eauto.
    + change (isinstance timeout_expired TimeoutExpired) with true. cbn. eauto.
  - unfold run_in_subprocess, with_tempdir, finally, bind, try_with,
      write_text, subprocess_run, launch_of. cbn.
    change (isinstance timeout_expired TimeoutExpired) with true. cbn. eauto.
  - pose proof (Hch _ _ _ _ Hb) as He.
    unfold run_in_subprocess, with_tempdir, finally, bind, try_with,
      write_text, subprocess_run, launch_of. cbn.
    rewrite He. destruct (isinstance e TimeoutExpired); cbn; eauto.
Qed.

Lemma process_task_after_api_failure
      (sys_executable : str) (mkdtemp : nat -> str)
      (responses_create : nat -> Request -> res Response)
      (child : nat -> Launch -> option str -> child_behaviour)
      (args : Args.t) (gens_dir : str) (t : Task.t) (prompt : str)
      (w : World) (e : exn) :
  Task.prompt t = Some prompt ->
  NotReused args (gen_path_of gens_dir t) w ->
  responses_create (api_calls w) (request_of args prompt) = Raise e ->
  ApiFailure e ->
  LaunchRaisesExceptions child ->
  exists program outcome w' r,
    assemble t [] = Ok program
    /\ run_in_subprocess sys_executable mkdtemp child program
                         (Args.timeout_sec args)
                         (after_failed_call (gen_path_of gens_dir t) w)
       = (Ok outcome, w')
    /\ process_task sys_executable mkdtemp responses_create child
                    args gens_dir t w
       = (Ok r, w')
    /\ Result.passed r = fst outcome
    /\ Result.error r = snd outcome
    /\ Result.gen_tokens r = None
    /\ Result.completion_chars r = 0.
Proof.
  intros Hpr Hn Hr He Hch.
  destruct (assemble_total t []) as [program Hp].
  destruct (run_in_subprocess_total sys_executable mkdtemp child program
              (Args.timeout_sec args)
              (after_failed_call (gen_path_of gens_dir t) w) Hch)
    as [[passed err] [w' Hrun]].
  exists program, (passed, err), w'.
  eexists. split; [exact Hp|]. split; [exact Hrun|].
  unfold process_task. unfold bind at 1.
  rewrite (get_completion_api_failure responses_create args
             (gen_path_of gens_dir t) t prompt w e Hpr Hn Hr He).
  unfold bind at 1. unfold lift at 1. rewrite Hp.
  unfold bind at 1. unfold time_time at 1.
  unfold bind at 1. rewrite Hrun.
  unfold bind, time_time, lift, ret. rewrite Hpr. cbn [py_len].
  split; [reflexivity|]. repeat split; reflexivity.
Qed.

Lemma call_openai_answered
      (responses_create : nat -> Request -> res Response)
      (args : Args.t) (prompt : str) (w : World) (resp : Response) :
  responses_create (api_calls w) (request_of args prompt) = Ok resp ->
  call_openai responses_create (Args.model args) (Some prompt)
              (Args.temperature args) (Args.top_p args)
              (Args.max_output_tokens args) (Args.seed args) w
  = (Ok (Str.strip (captured (output_text resp)),
         match usage resp with
         | Some u => output_tokens u
         | None => None
         end),
     bump_api w).
Proof.
  intros Hr.
  unfold call_openai, bind, lift, py_add, try_with, client_responses_create,
    ret.
  fold (request_of args prompt). rewrite Hr. reflexivity.
Qed.

Lemma get_completion_fresh_total
      (responses_create : nat -> Request -> res Response)
      (args : Args.t) (gen_path : str) (t : Task.t) (prompt : str)
      (w : World) :
  Task.prompt t = Some prompt ->
  NotReused args gen_path w ->
  ApiRaisesApiFailures responses_create ->
  exists c w', get_completion responses_create args gen_path t w = (Ok c, w').
Proof.
  intros Hp Hn Hapi.
  destruct (responses_create (api_calls w) (request_of args prompt))
    as [resp|e] eqn:Hr.
  - unfold get_completion. unfold bind at 1.
    rewrite (not_reused_not_cached args gen_path w Hn).
    unfold bind at 1. unfold try_with. rewrite Hp.
    rewrite (call_openai_answered responses_create args prompt w resp Hr).
    unfold bind, write_text, ret. eauto.
  - rewrite (get_completion_api_failure responses_create args gen_path t
               prompt w e Hp Hn Hr (Hapi _ _ _ Hr)). eauto.
Qed.

Lemma get_completion_total
      (responses_create : nat -> Request -> res Response)
      (args : Args.t) (gen_path : str) (t : Task.t) (w : World) :
  ApiRaisesApiFailures responses_create ->
  HasPrompt t ->
  exists c w', get_completion responses_create args gen_path t w = (Ok c, w').
Proof.
  intros Hapi Hp. unfold HasPrompt in Hp.
  destruct (Task.prompt t) as [prompt|] eqn:Ep; [|congruence].
  destruct (Args.dry_run args) eqn:Hd.
  - destruct (fs_lookup gen_path (files w)) as [s|] eqn:Hf.
    + unfold get_completion, bind, path_exists, read_text. rewrite Hd, Hf.
      rewrite Hf. unfold ret. eauto.
    + apply (get_completion_fresh_total responses_create args gen_path t
               prompt w Ep (or_intror Hf) Hapi).
  - apply (get_completion_fresh_total responses_create args gen_path t
             prompt w Ep (or_introl Hd) Hapi).
Qed.

Lemma process_task_total
      (sys_executable : str) (mkdtemp : nat -> str)
      (responses_create : nat -> Request -> res Response)
      (child : nat -> Launch -> option str -> child_behaviour)
      (args : Args.t) (gens_dir : str) (t : Task.t) (w : World) :
  ApiRaisesApiFailures responses_create ->
  LaunchRaisesExceptions child ->
  HasPrompt t ->
  exists r w',
    process_task sys_executable mkdtemp responses_create child
                 args gens_dir t w = (Ok r, w')
    /\ Result.difficulty_scale r = Task.difficulty_scale t.
Proof.
  intros Hapi Hch Hpr.
  destruct (get_completion_total responses_create args
              (gen_path_of gens_dir t) t w Hapi Hpr) as [[c toks] [w1 Hg]].
  destruct (assemble_total t c) as [program Hp].
  destruct (run_in_subprocess_total sys_executable mkdtemp child program
              (Args.timeout_sec args) w1 Hch) as [[passed err] [w2 Hrun]].
  unfold HasPrompt in Hpr.
  destruct (Task.prompt t) as [prompt|] eqn:Ep; [|congruence].
  unfold process_task. unfold bind at 1. rewrite Hg.
  unfold bind at 1. unfold lift at 1. rewrite Hp.
  unfold bind at 1. unfold time_time at 1.
  unfold bind at 1. rewrite Hrun.
  unfold bind, time_time, lift, ret. rewrite Ep. cbn [py_len].
  eexists. eexists. split; reflexivity.
Qed.

Lemma for_tasks_total
      (sys_executable : str) (mkdtemp : nat -> str)
      (responses_create : nat -> Request -> res Response)
      (child : nat -> Launch -> option str -> child_behaviour)
      (args : Args.t) (gens_dir : str)
      (tasks : list Task.t) (acc : list Result.t) (w : World) :
  ApiRaisesApiFailures responses_create ->
  LaunchRaisesExceptions child ->
  Forall HasPrompt tasks ->
  exists results w',
    for_tasks sys_executable mkdtemp responses_create child
              args gens_dir tasks acc w = (Ok results, w')
    /\ map Result.difficulty_scale results
       = map Result.difficulty_scale acc ++ map Task.difficulty_scale tasks.
Proof.
  intros Hapi Hch Hpr. revert acc w.
  induction Hpr as [|t tasks Ht _ IH]; intros acc w.
  - exists acc, w. split; [reflexivity|]. rewrite app_nil_r. reflexivity.
  - destruct (process_task_total sys_executable mkdtemp responses_create child
                args gens_dir t w Hapi Hch Ht) as [r [w1 [Hr Hl]]].
    destruct (IH (acc ++ [r]) w1) as [results [w' [Hf Hm]]].
    exists results, w'. split.
    + simpl. unfold bind. rewrite Hr. exact Hf.
    + rewrite Hm, map_app, <- app_assoc. simpl. rewrite Hl. reflexivity.
Qed.

(** An exception of the client that is neither an API failure nor a
    [RuntimeError] ends the loop at the task whose call raised it. *)
Lemma for_tasks_other_failure
      (sys_executable : str) (mkdtemp : nat -> str)
      (responses_create : nat -> Request -> res Response)
      (child : nat -> Launch -> option str -> child_behaviour)
      (args : Args.t) (gens_dir : str) (t : Task.t) (prompt : str)
      (tasks : list Task.t) (acc : list Result.t) (w : World) (e : exn) :
  Task.prompt t = Some prompt ->
  NotReused args (gen_path_of gens_dir t) w ->
  responses_create (api_calls w) (request_of args prompt) = Raise e ->
  isinstance e APIError = false ->
  isinstance e RuntimeError = false ->
  for_tasks sys_executable mkdtemp responses_create child args gens_dir
            (t :: tasks) acc w
  = (Raise e, bump_api w).
Proof.
  intros Hp Hn Hr He Hrt.
  simpl for_tasks. unfold bind at 1. unfold process_task. unfold bind at 1.
  rewrite (get_completion_other_failure responses_create args
             (gen_path_of gens_dir t) t prompt w e Hp Hn Hr He Hrt).
  reflexivity.
Qed.

(** ** When the summary is written *)

Lemma sort_into_labels (l acc : list (option str)) :
  Forall IsLabel acc -> Forall IsLabel l ->
  exists keys,
    sort_into acc l = Ok keys
    /\ forall x, In x keys <-> In x acc \/ In x l.
Proof.
  revert acc. induction l as [|x l IH]; intros acc Hacc Hl.
  - exists acc. split; [reflexivity|]. intros x. simpl. tauto.
  - inversion Hl as [|? ? Hx Hl']; subst.
    destruct x as [s|]; [|exfalso; apply Hx; reflexivity].
    destruct (insert_label_some s acc Hacc) as [acc' [E [_ [Hacc' Hin]]]].
    destruct (IH acc' Hacc' Hl') as [keys [Hs Hk]].
    exists keys. split.
    + simpl. rewrite E. exact Hs.
    + intros x. rewrite Hk, Hin. simpl. intuition congruence.
Qed.

Lemma py_sorted_sortable (l : list (option str)) :
  Sortable l -> NoDup l ->
  exists keys, py_sorted l = Ok keys /\ forall x, In x keys <-> In x l.
Proof.
  intros [Hl | Hl] Hnd.
  - destruct (sort_into_labels l [] (Forall_nil _) Hl) as [keys [E Hk]].
    exists keys. split; [exact E|]. intros x. rewrite Hk. simpl. tauto.
  - destruct l as [|x [|y l]].
    + exists []. split; [reflexivity | tauto].
    + inversion Hl as [|? ? Hx _]; subst.
      exists [None]. split; [reflexivity | tauto].
    + exfalso. inversion Hl as [|? ? Hx Hl']; subst.
      inversion Hl' as [|? ? Hy _]; subst.
      inversion Hnd as [|? ? Hn _]; subst. apply Hn. left. reflexivity.
Qed.

Lemma label_set_sortable (results : list Result.t) :
  Sortable (map Result.difficulty_scale results) ->
  Sortable (label_set results).
Proof.
  unfold label_set. intros [H | H]; [left | right];
    apply Forall_forall; intros x Hx; apply nodup_In in Hx;
    exact (proj1 (Forall_forall _ _) H x Hx).
Qed.

(** With sortable labels the mapping has one key for each label met among the
    results and no other, each with its counts. *)
Lemma by_difficulty_sortable (results : list Result.t) :
  Sortable (map Result.difficulty_scale results) ->
  exists keys,
    by_difficulty results = Ok (map (fun k => (k, bucket_of results k)) keys)
    /\ forall k, In k keys <-> In k (map Result.difficulty_scale results).
Proof.
  intros H. unfold by_difficulty.
  destruct (py_sorted_sortable (label_set results) (label_set_sortable _ H)
              (NoDup_nodup _ _)) as [keys [E Hk]].
  exists keys. rewrite E. split; [reflexivity|].
  intros k. rewrite Hk. unfold label_set. apply nodup_In.
Qed.

Lemma summarize_and_persist_total
      (csv_dumps : list str -> list Result.t -> str)
      (json_dumps : Summary.t -> str)
      (args : Args.t) (run_ts out_root : str)
      (results : list Result.t) (w : World) :
  results <> [] ->
  Sortable (map Result.difficulty_scale results) ->
  exists summary w',
    summarize_and_persist csv_dumps json_dumps args run_ts out_root results w
    = (Ok summary, w')
    /\ fs_lookup (summary_path out_root) (files w') = Some (json_dumps summary)
    /\ Summary.total summary = length results
    /\ Summary.passed summary = count_if Result.passed results.
Proof.
  intros Hne Hs. destruct results as [|r0 results]; [congruence|].
  destruct (by_difficulty_sortable (r0 :: results) Hs) as [keys [E _]].
  unfold summarize_and_persist, bind, write_text, lift, ret. rewrite E.
  eexists. eexists. split; [reflexivity|].
  cbn [files set_files snd fs_lookup Format.lookup].
  rewrite str_eqb_refl. repeat split; reflexivity.
Qed.

(** ** The whole run *)

Lemma new_client_ok (w : World) :
  fst (new_client w) = Ok tt -> new_client w = (Ok tt, w).
Proof.
  unfold new_client.
  destruct (Format.lookup (lit "OPENAI_API_KEY") (environ w));
    [reflexivity | discriminate].
Qed.

Lemma evaluate_dataset_failure
      (now_stamp sys_executable : str) (mkdtemp : nat -> str)
      (load_dataset : str -> str -> res (list row))
      (responses_create : nat -> Request -> res Response)
      (child : nat -> Launch -> option str -> child_behaviour)
      (csv_dumps : list str -> list Result.t -> str)
      (json_dumps : Summary.t -> str)
      (args : Args.t) (w : World) (e : exn) :
  load_dataset (Args.dataset args) (Args.split args) = Raise e ->
  fst (new_client w) = Ok tt ->
  evaluate now_stamp sys_executable mkdtemp load_dataset responses_create
           child csv_dumps json_dumps args w
  = (Raise e, w).
Proof.
  intros Hl Hc. unfold evaluate, bind. rewrite (new_client_ok w Hc).
  unfold lift, load_tasks. rewrite Hl. reflexivity.
Qed.

Lemma evaluate_completes
      (now_stamp sys_executable : str) (mkdtemp : nat -> str)
      (load_dataset : str -> str -> res (list row))
      (responses_create : nat -> Request -> res Response)
      (child : nat -> Launch -> option str -> child_behaviour)
      (csv_dumps : list str -> list Result.t -> str)
      (json_dumps : Summary.t -> str)
      (args : Args.t) (w : World) (tasks : list Task.t) :
  ApiRaisesApiFailures responses_create ->
  LaunchRaisesExceptions child ->
  fst (new_client w) = Ok tt ->
  load_tasks load_dataset (Args.dataset args) (Args.split args)
             (Args.max_items args) = Ok tasks ->
  Forall HasPrompt tasks ->
  tasks <> [] ->
  Sortable (map Task.difficulty_scale tasks) ->
  exists summary w',
    evaluate now_stamp sys_executable mkdtemp load_dataset responses_create
             child csv_dumps json_dumps args w
    = (Ok tt, w')
    /\ fs_lookup (summary_path (out_root_of args now_stamp)) (files w')
       = Some (json_dumps summary)
    /\ Summary.total summary = length tasks.
Proof.
  intros Hapi Hch Hc Hl Hpr Hne Hs.
  destruct (for_tasks_total sys_executable mkdtemp responses_create child args
              (path_join (out_root_of args now_stamp) (lit "generations"))
              tasks [] w Hapi Hch Hpr) as [results [w1 [Hf Hm]]].
  simpl in Hm.
  assert (Hlen : length results = length tasks).
  { rewrite <- (length_map Result.difficulty_scale), Hm, length_map.
    reflexivity. }
  assert (Hre : results <> []).
  { intros ->. destruct tasks; [congruence | discriminate]. }
  rewrite <- Hm in Hs.
  destruct (summarize_and_persist_total csv_dumps json_dumps args now_stamp
              (out_root_of args now_stamp) results w1 Hre Hs)
    as [summary [w' [Hsum [Hfile [Htot _]]]]].
  exists summary, w'. split; [|split].
  - unfold evaluate. unfold bind at 1. rewrite (new_client_ok w Hc).
    unfold bind at 1. unfold lift. rewrite Hl.
    unfold bind at 1. rewrite Hf.
    unfold bind. rewrite Hsum. reflexivity.
  - exact Hfile.
  - rewrite Htot. exact Hlen.
Qed.

(** The first task's call raises an exception that no clause names: the run
    ends there, with the request counted and nothing else done. *)
Lemma evaluate_other_failure
      (now_stamp sys_executable : str) (mkdtemp : nat -> str)
      (load_dataset : str -> str -> res (list row))
      (responses_create : nat -> Request -> res Response)
      (child : nat -> Launch -> option str -> child_behaviour)
      (csv_dumps : list str -> list Result.t -> str)
      (json_dumps : Summary.t -> str)
      (args : Args.t) (w : World) (t : Task.t) (prompt : str)
      (tasks : list Task.t) (e : exn) :
  fst (new_client w) = Ok tt ->
  load_tasks load_dataset (Args.dataset args) (Args.split args)
             (Args.max_items args) = Ok (t :: tasks) ->
  Task.prompt t = Some prompt ->
  NotReused args
            (gen_path_of (path_join (out_root_of args now_stamp)
                                    (lit "generations")) t) w ->
  responses_create (api_calls w) (request_of args prompt) = Raise e ->
  isinstance e APIError = false ->
  isinstance e RuntimeError = false ->
  evaluate now_stamp sys_executable mkdtemp load_dataset responses_create
           child csv_dumps json_dumps args w
  = (Raise e, bump_api w).
Proof.
  intros Hc Hl Hp Hn Hr He Hrt.
  unfold evaluate. unfold bind at 1. rewrite (new_client_ok w Hc).
  unfold bind at 1. unfold lift. rewrite Hl.
  unfold bind at 1.
  rewrite (for_tasks_other_failure sys_executable mkdtemp responses_create
             child args _ t prompt tasks [] w e Hp Hn Hr He Hrt).
  reflexivity.
Qed.

(** C6: the claim as it stands fails.  The dataset loads, both of its rows
    become tasks, and the run is aborted all the same: the client raises an
    error of the SDK that is not an [APIError], neither [except] clause
    names it, and it leaves [evaluate] at the first task. *)
Lemma client_error_aborts_the_run :
  load_tasks DataFixture.load_labelled (Args.dataset RunFixture.args)
             (Args.split RunFixture.args) (Args.max_items RunFixture.args)
  = Ok [Task.mk 0 (Some (lit "qiskitHumanEval/0")) (Some (lit "add"))
                (Some (lit "def add(a, b):"))
                (Some (lit "def check(c): pass")) (Some (lit "basic"));
        Task.mk 1 (Some (lit "1")) (Some (lit "div"))
                (Some (lit "def div(a, b):"))
                (Some (lit "def check(c): pass"))
                (Some (lit "intermediate"))]
  /\ evaluate RunFixture.run_ts Fixture.python Fixture.mkdtemp
              DataFixture.load_labelled RunFixture.client_broken
              (Fixture.prints Fixture.failing_output 1)
              RunFixture.csv_dumps RunFixture.json_dumps
              RunFixture.args Fixture.w0
     = (Raise RunFixture.sdk_error, bump_api Fixture.w0)
  /\ ~ OnlyDatasetFailureAborts
        DataFixture.load_labelled RunFixture.args
        (evaluate RunFixture.run_ts Fixture.python Fixture.mkdtemp
                  DataFixture.load_labelled RunFixture.client_broken
                  (Fixture.prints Fixture.failing_output 1)
                  RunFixture.csv_dumps RunFixture.json_dumps
                  RunFixture.args Fixture.w0).
Proof.
  split; [vm_compute; reflexivity|]. split; [vm_compute; reflexivity|].
  intros H. specialize (H RunFixture.sdk_error).
  assert (E : DataFixture.load_labelled (Args.dataset RunFixture.args)
                                        (Args.split RunFixture.args)
              = Raise RunFixture.sdk_error).
  { apply H. vm_compute. reflexivity. }
  discriminate E.
Qed.

(** C6, amended.  A failure of the model API during the completion call of a
    task (the call is made, so the task's prompt is a string) is caught: the
    completion is the empty text, the token count is unknown, and the task
    goes on to be assembled with that completion, run and recorded.  Hence,
    when the API raises nothing but such failures, the loop records one
    result per task whose prompt is a string and the run ends with its
    summary written.  A failure to load the dataset aborts the run where it
    stands: no request sent, no file written, no child started.  It is not
    the only failure that aborts the run: an exception the client raises
    during a completion call that is neither an API failure nor a
    [RuntimeError] is caught by neither clause and ends the loop, and with it
    the run, at that task. *)
Theorem api_failure_is_contained
        (now_stamp sys_executable : str) (mkdtemp : nat -> str)
        (load_dataset : str -> str -> res (list row))
        (responses_create : nat -> Request -> res Response)
        (child : nat -> Launch -> option str -> child_behaviour)
        (csv_dumps : list str -> list Result.t -> str)
        (json_dumps : Summary.t -> str)
        (args : Args.t) :
  (forall gens_dir t prompt w e,
      Task.prompt t = Some prompt ->
      NotReused args (gen_path_of gens_dir t) w ->
      responses_create (api_calls w) (request_of args prompt) = Raise e ->
      ApiFailure e ->
      LaunchRaisesExceptions child ->
      get_completion responses_create args (gen_path_of gens_dir t) t w
      = (Ok ([], None), after_failed_call (gen_path_of gens_dir t) w)
      /\ exists program outcome w' r,
           assemble t [] = Ok program
           /\ run_in_subprocess sys_executable mkdtemp child program
                                (Args.timeout_sec args)
                                (after_failed_call (gen_path_of gens_dir t) w)
              = (Ok outcome, w')
           /\ process_task sys_executable mkdtemp responses_create child
                           args gens_dir t w
              = (Ok r, w')
           /\ Result.passed r = fst outcome
           /\ Result.error r = snd outcome
           /\ Result.gen_tokens r = None
           /\ Result.completion_chars r = 0)
  /\ (ApiRaisesApiFailures responses_create ->
      LaunchRaisesExceptions child ->
      (forall gens_dir tasks w,
          Forall HasPrompt tasks ->
          exists results w',
            for_tasks sys_executable mkdtemp responses_create child
                      args gens_dir tasks [] w = (Ok results, w')
            /\ length results = length tasks)
      /\ (forall w tasks,
             fst (new_client w) = Ok tt ->
             load_tasks load_dataset (Args.dataset args) (Args.split args)
                        (Args.max_items args) = Ok tasks ->
             Forall HasPrompt tasks ->
             tasks <> [] ->
             Sortable (map Task.difficulty_scale tasks) ->
             exists summary w',
               evaluate now_stamp sys_executable mkdtemp load_dataset
                        responses_create child csv_dumps json_dumps args w
               = (Ok tt, w')
               /\ fs_lookup (summary_path (out_root_of args now_stamp))
                            (files w')
                  = Some (json_dumps summary)
               /\ Summary.total summary = length tasks))
  /\ (forall w e,
         load_dataset (Args.dataset args) (Args.split args) = Raise e ->
         fst (new_client w) = Ok tt ->
         evaluate now_stamp sys_executable mkdtemp load_dataset
                  responses_create child csv_dumps json_dumps args w
         = (Raise e, w))
  /\ (forall gens_dir t prompt tasks acc w e,
         Task.prompt t = Some prompt ->
         NotReused args (gen_path_of gens_dir t) w ->
         responses_create (api_calls w) (request_of args prompt) = Raise e ->
         isinstance e APIError = false ->
         isinstance e RuntimeError = false ->
         for_tasks sys_executable mkdtemp responses_create child
                   args gens_dir (t :: tasks) acc w
         = (Raise e, bump_api w))
  /\ (forall w t prompt tasks e,
         fst (new_client w) = Ok tt ->
         load_tasks load_dataset (Args.dataset args) (Args.split args)
                    (Args.max_items args) = Ok (t :: tasks) ->
         Task.prompt t = Some prompt ->
         NotReused args
                   (gen_path_of (path_join (out_root_of args now_stamp)
                                           (lit "generations")) t) w ->
         responses_create (api_calls w) (request_of args prompt) = Raise e ->
         isinstance e APIError = false ->
         isinstance e RuntimeError = false ->
         evaluate now_stamp sys_executable mkdtemp load_dataset
                  responses_create child csv_dumps json_dumps args w
         = (Raise e, bump_api w)).
Proof.
  split; [|split; [|split; [|split]]].
  - intros gens_dir t prompt w e Hp Hn Hr He Hch. split.
    + apply (get_completion_api_failure responses_create args
               (gen_path_of gens_dir t) t prompt w e Hp Hn Hr He).
    + apply (process_task_after_api_failure sys_executable mkdtemp
               responses_create child args gens_dir t prompt w e
               Hp Hn Hr He Hch).
  - intros Hapi Hch. split.
    + intros gens_dir tasks w Hpr.
      destruct (for_tasks_total sys_executable mkdtemp responses_create child
                  args gens_dir tasks [] w Hapi Hch Hpr)
        as [results [w' [Hf Hm]]].
      exists results, w'. split; [exact Hf|].
      rewrite <- (length_map Result.difficulty_scale), Hm. simpl.
      apply length_map.
    + intros w tasks Hc Hl Hpr Hne Hs.
      apply (evaluate_completes now_stamp sys_executable mkdtemp load_dataset
               responses_create child csv_dumps json_dumps args w tasks
               Hapi Hch Hc Hl Hpr Hne Hs).
  - intros w e Hl Hc.
    apply (evaluate_dataset_failure now_stamp sys_executable mkdtemp
             load_dataset responses_create child csv_dumps json_dumps
             args w e Hl Hc).
  - intros gens_dir t prompt tasks acc w e Hp Hn Hr He Hrt.
    apply (for_tasks_other_failure sys_executable mkdtemp responses_create
             child args gens_dir t prompt tasks acc w e Hp Hn Hr He Hrt).
  - intros w t prompt tasks e Hc Hl Hp Hn Hr He Hrt.
    apply (evaluate_other_failure now_stamp sys_executable mkdtemp
             load_dataset responses_create child csv_dumps json_dumps
             args w t prompt tasks e Hc Hl Hp Hn Hr He Hrt).
Qed.

Lemma api_down_raises_api_failures :
  ApiRaisesApiFailures RunFixture.api_down.
Proof. intros n rq e H. injection H as <-. reflexivity. Qed.

Lemma prints_raises_nothing (out : str) (rc : Z) :
  LaunchRaisesExceptions (Fixture.prints out rc).
Proof. intros pid l script e H. discriminate. Qed.

Lemma api_failure_is_contained_witness :
  (exists summary w',
      evaluate RunFixture.run_ts Fixture.python Fixture.mkdtemp
               DataFixture.load_labelled RunFixture.api_down
               (Fixture.prints Fixture.failing_output 1)
               RunFixture.csv_dumps RunFixture.json_dumps
               RunFixture.args Fixture.w0
      = (Ok tt, w')
      /\ fs_lookup (summary_path RunFixture.out_root) (files w')
         = Some (RunFixture.json_dumps summary)
      /\ Summary.total summary = 2)
  /\ for_tasks Fixture.python Fixture.mkdtemp RunFixture.client_broken
               (Fixture.prints Fixture.failing_output 1) RunFixture.args
               (lit "out/generations")
               [Task.mk 0 (Some (lit "0")) (Some (lit "add"))
                        (Some (lit "def add(a, b):"))
                        (Some (lit "def check(c): pass")) None;
                Task.mk 1 (Some (lit "1")) (Some (lit "div"))
                        (Some (lit "def div(a, b):"))
                        (Some (lit "def check(c): pass")) None]
               [] Fixture.w0
     = (Raise RunFixture.sdk_error, bump_api Fixture.w0).
Proof.
  destruct (api_failure_is_contained
              RunFixture.run_ts Fixture.python Fixture.mkdtemp
              DataFixture.load_labelled RunFixture.api_down
              (Fixture.prints Fixture.failing_output 1)
              RunFixture.csv_dumps RunFixture.json_dumps RunFixture.args)
    as [_ [H _]].
  destruct (api_failure_is_contained
              RunFixture.run_ts Fixture.python Fixture.mkdtemp
              DataFixture.load_labelled RunFixture.client_broken
              (Fixture.prints Fixture.failing_output 1)
              RunFixture.csv_dumps RunFixture.json_dumps RunFixture.args)
    as [_ [_ [_ [Habort _]]]].
  split.
  - destruct (H api_down_raises_api_failures
                (prints_raises_nothing Fixture.failing_output 1))
      as [_ Hrun].
    apply (Hrun Fixture.w0
             [Task.mk 0 (Some (lit "qiskitHumanEval/0")) (Some (lit "add"))
                      (Some (lit "def add(a, b):"))
                      (Some (lit "def check(c): pass")) (Some (lit "basic"));
              Task.mk 1 (Some (lit "1")) (Some (lit "div"))
                      (Some (lit "def div(a, b):"))
                      (Some (lit "def check(c): pass"))
                      (Some (lit "intermediate"))]).
    + reflexivity.
    + vm_compute. reflexivity.
    + repeat constructor; discriminate.
    + discriminate.
    + left. repeat constructor; discriminate.
  - apply (Habort (lit "out/generations") _ (lit "def add(a, b):")).
    + reflexivity.
    + left. reflexivity.
    + reflexivity.
    + reflexivity.
    + reflexivity.
Defined.

(** The model API is down for the whole run: every task is still assembled,
    run and recorded, with an empty completion and no token count. *)
Example results_when_api_is_down :
  match
    fst (for_tasks Fixture.python Fixture.mkdtemp RunFixture.api_down
                   (Fixture.prints Fixture.failing_output 1) RunFixture.args
                   (lit "out/generations")
                   [Task.mk 0 (Some (lit "0")) (Some (lit "add"))
                            (Some (lit "def add(a, b):"))
                            (Some (lit "def check(c): pass")) None;
                    Task.mk 1 (Some (lit "1")) (Some (lit "div"))
                            (Some (lit "def div(a, b):"))
                            (Some (lit "def check(c): pass")) None]
                   [] Fixture.w0)
  with
  | Ok results =>
      map (fun r => (Result.task_id r, Result.passed r, Result.error r,
                     Result.gen_tokens r, Result.completion_chars r)) results
  | Raise _ => []
  end
  = [(Some (lit "0"), false, Some (lit "ValueError('x')"), None, 0);
     (Some (lit "1"), false, Some (lit "ValueError('x')"), None, 0)].
Proof. vm_compute. reflexivity. Qed.

(** A task whose prompt cell was null: no request is sent, and the
    [TypeError] of [prompt + USER_SUFFIX] ends the loop. *)
Example null_prompt_ends_the_loop :
  for_tasks Fixture.python Fixture.mkdtemp RunFixture.api_down
            (Fixture.prints Fixture.failing_output 1) RunFixture.args
            (lit "out/generations")
            [Task.mk 0 (Some (lit "0")) (Some (lit "add")) None
                     (Some (lit "def check(c): pass")) None]
            [] Fixture.w0
  = (Raise (mk_exn TypeError
              (lit "unsupported operand type(s) for +: 'NoneType' and 'str'")
              (lit "TypeError(...)")),
     Fixture.w0).
Proof. vm_compute. reflexivity. Qed.

(** The dataset cannot be loaded: the run stops before anything is done. *)
Example dataset_failure_aborts :
  evaluate RunFixture.run_ts Fixture.python Fixture.mkdtemp
           DataFixture.unavailable RunFixture.api_down Fixture.hangs
           RunFixture.csv_dumps RunFixture.json_dumps
           RunFixture.args Fixture.w0
  = (Raise (mk_exn DatasetLoadError (lit "dataset not found")
                   (lit "DatasetNotFoundError(...)")),
     Fixture.w0).
Proof. vm_compute. reflexivity. Qed.
